(** * mcp_openapi_template: compiler, executor, credential cache and policies

    A shallow embedding of the request pipeline of the MCP OpenAPI template:
    - [openapi_tools]  (src/openapi_tools.py): parameter merging, tool-name
      sanitisation, tool registration and request assembly;
    - [server]         (src/server.py): auth merging and the retry wrapper;
    - [auth_gateway]   (src/auth_gateway.py): the credential cache;
    - [tool_policies]  (src/tool_policies.py): risk classification and the
      audit-log filter.

    Python dictionaries are finite maps ([gmap]), Python [int]s are [Z],
    Python [float]s are binary64 values ([spec_float]), [datetime]s are
    microseconds counted from [datetime.min], exceptions are values of a
    result type, and everything a function reads from or writes to the
    outside (network, clock, random source, registry) is threaded
    explicitly.  A [str] is a [string] read one code per character; what
    the Unicode database says about the characters outside ASCII is a
    table the [str] methods take ([Py.Unicode]). *)

From Stdlib Require Import ZArith QArith Qminmax Ascii String DecimalString.
From Stdlib Require Import SpecFloat.
From stdpp Require Import gmap strings list fin_maps.

Close Scope Q_scope.
Set Warnings "-register-all".

(* ===================================================================== *)
(** * Python values and [str] methods                                     *)
(* ===================================================================== *)

Module Py.

(** A Python object as it travels through [args], query maps and JSON
    bodies. *)
Inductive PyVal :=
| PyNone
| PyBool (b : bool)
| PyInt (z : Z)
| PyStr (s : string)
| PyList (l : list PyVal)
| PyDict (d : gmap string PyVal).

Definition is_digit (c : ascii) : bool :=
  let n := nat_of_ascii c in (48 <=? n)%nat && (n <=? 57)%nat.
Definition is_upper (c : ascii) : bool :=
  let n := nat_of_ascii c in (65 <=? n)%nat && (n <=? 90)%nat.
Definition is_lower (c : ascii) : bool :=
  let n := nat_of_ascii c in (97 <=? n)%nat && (n <=? 122)%nat.

(** A [string] is a sequence of characters, one code per character: the
    codes below 128 are the ASCII characters, the codes from 128 on stand
    for characters outside ASCII. *)
Definition is_ascii (c : ascii) : bool := (nat_of_ascii c <? 128)%nat.

(** The case mappings of the ASCII letters. *)
Definition ascii_lower (c : ascii) : ascii :=
  if is_upper c then ascii_of_nat (nat_of_ascii c + 32) else c.
Definition ascii_upper (c : ascii) : ascii :=
  if is_lower c then ascii_of_nat (nat_of_ascii c - 32) else c.

Fixpoint map_chars (f : ascii → ascii) (s : string) : string :=
  match s with
  | EmptyString => EmptyString
  | String c s' => String (f c) (map_chars f s')
  end.

(** [all(p(ch) for ch in s)] *)
Fixpoint all_chars (p : ascii → bool) (s : string) : bool :=
  match s with
  | EmptyString => true
  | String c s' => p c && all_chars p s'
  end.

(** What Python's Unicode database says about the characters outside
    ASCII: whether one is alphanumeric or white space, and the lower-case
    and upper-case forms of a string that contains one (a case mapping can
    change the number of characters and depends on the neighbours of a
    character). *)
Class Unicode := {
  unicode_isalnum : ascii → bool;
  unicode_isspace : ascii → bool;
  unicode_lower : string → string;
  unicode_upper : string → string;
}.

Section unicode.
Context {unicode : Unicode}.

(** [ch.isalnum()] *)
Definition isalnum (c : ascii) : bool :=
  if is_ascii c then is_digit c || is_upper c || is_lower c
  else unicode_isalnum c.

(** [s.lower()] and [s.upper()] *)
Definition lower (s : string) : string :=
  if all_chars is_ascii s then map_chars ascii_lower s else unicode_lower s.
Definition upper (s : string) : string :=
  if all_chars is_ascii s then map_chars ascii_upper s else unicode_upper s.

(** [ch.isspace()]: in ASCII, tab to carriage return, the four separators
    0x1c to 0x1f, and the space. *)
Definition is_space (c : ascii) : bool :=
  if is_ascii c then
    let n := nat_of_ascii c in
    ((9 <=? n)%nat && (n <=? 13)%nat) || ((28 <=? n)%nat && (n <=? 32)%nat)
  else unicode_isspace c.

(** [s.lstrip()], [s.rstrip()] and [s.strip()] *)
Fixpoint lstrip_ws (s : string) : string :=
  match s with
  | EmptyString => EmptyString
  | String c s' => if is_space c then lstrip_ws s' else s
  end.

Fixpoint rstrip_ws (s : string) : string :=
  match s with
  | EmptyString => EmptyString
  | String a s' =>
      match rstrip_ws s' with
      | EmptyString => if is_space a then EmptyString else String a EmptyString
      | r => String a r
      end
  end.

Definition strip (s : string) : string := rstrip_ws (lstrip_ws s).

End unicode.

(** [s.split(sep)] for a one-character separator: the pieces between the
    separators, empty pieces included. *)
Fixpoint split (sep : ascii) (s : string) : list string :=
  match s with
  | EmptyString => [EmptyString]
  | String c s' =>
      if decide (c = sep) then EmptyString :: split sep s'
      else match split sep s' with
           | piece :: rest => String c piece :: rest
           | [] => [String c EmptyString]
           end
  end.

(** ["".join(f(ch) for ch in s)] *)
Fixpoint join_chars (f : ascii → string) (s : string) : string :=
  match s with
  | EmptyString => EmptyString
  | String c s' => f c +:+ join_chars f s'
  end.

(** [sep.join(pieces)] *)
Fixpoint join (sep : string) (pieces : list string) : string :=
  match pieces with
  | [] => ""
  | [p] => p
  | p :: rest => p +:+ sep +:+ join sep rest
  end.

(** [s.rstrip(c)] for a one-character set. *)
Fixpoint rstrip (c : ascii) (s : string) : string :=
  match s with
  | EmptyString => EmptyString
  | String a s' =>
      match rstrip c s' with
      | EmptyString => if decide (a = c) then EmptyString else String a EmptyString
      | r => String a r
      end
  end.

Fixpoint take (n : nat) (s : string) : string :=
  match n, s with
  | S n', String c s' => String c (take n' s')
  | _, _ => EmptyString
  end.

(** [s[:n]]: a negative bound counts from the end of the string. *)
Definition slice_to (s : string) (n : Z) : string :=
  if (n <? 0)%Z then take (Z.to_nat (Z.of_nat (String.length s) + n)) s
  else take (Z.to_nat n) s.

(** [sub in s] *)
Fixpoint contains (sub s : string) : bool :=
  String.prefix sub s ||
  match s with
  | EmptyString => false
  | String _ s' => contains sub s'
  end.

(** [s.startswith(p)] *)
Definition startswith (s p : string) : bool := String.prefix p s.

(** [s.replace(old, new)] for a non-empty [old]: occurrences are replaced
    from left to right without overlap; [skip] counts the characters of a
    matched occurrence still to be dropped. *)
Fixpoint replace_go (old new : string) (skip : nat) (s : string) : string :=
  match s with
  | EmptyString => EmptyString
  | String c s' =>
      match skip with
      | S k => replace_go old new k s'
      | O =>
          if String.prefix old s
          then new +:+ replace_go old new (String.length old - 1) s'
          else String c (replace_go old new 0 s')
      end
  end.
Definition replace (old new s : string) : string := replace_go old new 0 s.

(** [str(v)] on scalars.  The rendering of containers is not used by any
    statement below and is left to the [str] function passed to the
    executor; this instance renders them as their type name. *)
Definition str_scalar (v : PyVal) : string :=
  match v with
  | PyNone => "None"
  | PyBool true => "True"
  | PyBool false => "False"
  | PyInt z => NilZero.string_of_int (Z.to_int z)
  | PyStr s => s
  | PyList _ => "list"
  | PyDict _ => "dict"
  end.

(** Truthiness of an optional string: [None] and [""] are falsy. *)
Definition truthy_str (o : option string) : option string :=
  match o with
  | Some "" => None
  | o => o
  end.

End Py.

(* ===================================================================== *)
(** * Exceptions and results                                              *)
(* ===================================================================== *)

(** The [details] of an [AuthGatewayError], by the template that builds
    them: [response.text[:200]], "Tipo recibido: <type name>",
    "Credenciales faltantes: [...]", [str(e)] of a transport exception, and
    "Timeout: <timeout>s". *)
Inductive Details :=
| NoDetails
| ResponseText (text : string)
| ReceivedType (type_name : string)
| MissingCredentials (missing : list string)
| ExceptionText (text : string)
| TimeoutAfter (timeout : Q).

(** [AuthGatewayError]: a dataclass with a message, an optional status code
    and optional details. *)
Record AuthGatewayError := {
  message : string;
  status_code : option Z;
  details : Details;
}.

(** Which of the two validation messages a [ValueError] of the executor
    carries: "Faltan path params requeridos: [...]" or
    "Faltan query params requeridos: [...]". *)
Inductive MissingKind := MissingPath | MissingQuery.

(** The operation an [OverflowError] comes from: the conversion of an
    [int] operand to [float] ("int too large to convert to float"), the
    construction of a [timedelta] of more than 999999999 days, and a
    [datetime] sum outside the years 1 to 9999 ("date value out of range"). *)
Inductive Overflow := IntTooLargeForFloat | TimedeltaTooLarge | DateOutOfRange.

Inductive Exn :=
| ValueError (kind : MissingKind) (missing : list string)
| KeyError (key : string)
| RuntimeError (msg : string)
| AttributeError (msg : string)
| JSONDecodeError
| GatewayError (e : AuthGatewayError)
| HTTPStatusError (status : Z) (text : string)
| ConnectError (msg : string)
| TimeoutException (msg : string)
| OverflowError (cause : Overflow)
| OtherError (msg : string).

Inductive result (A : Type) :=
| Ok (a : A)
| Raise (e : Exn).
Arguments Ok {A} a.
Arguments Raise {A} e.

Global Instance result_ret : MRet result := λ A a, Ok a.
Global Instance result_bind : MBind result := λ A B k r,
  match r with
  | Ok a => k a
  | Raise e => Raise e
  end.

(* ===================================================================== *)
(** * src/openapi_tools.py                                                *)
(* ===================================================================== *)

Module openapi_tools.
Import Py.

(** One entry of a [parameters] list.  [p_name] and [p_in] are what
    [param.get("name")] and [param.get("in")] return ([None] when the key
    is absent; when present they are strings, as the OpenAPI schema has
    them); [p_required] is [param.get("required") is True]. *)
Record Param := {
  p_name : option string;
  p_in : option string;
  p_required : bool;
}.

Global Instance Param_eq_dec : EqDecision Param.
Proof. solve_decision. Defined.

Definition ParamKey : Type := option string * option string.

Definition param_key (param : Param) : ParamKey := (p_name param, p_in param).

(** Body of the inner loop of [_collect_parameters]; the state is
    [(seen, merged)]. *)
Definition collect_step (st : gset ParamKey * list Param) (param : Param)
  : gset ParamKey * list Param :=
  let key := param_key param in
  if decide (key ∈ st.1) then st
  else ({[ key ]} ∪ st.1, st.2 ++ [param]).

Definition _collect_parameters (path_params op_params : list Param)
  : list Param :=
  (foldl collect_step (foldl collect_step (∅, []) path_params) op_params).2.

(** The first parameter of a list declared under a given key. *)
Definition first_with_key (k : ParamKey) (params : list Param) : option Param :=
  head (filter (λ q, param_key q = k) params).

(** What the two loops of [_collect_parameters] maintain after the
    parameters [done] have been visited. *)
Definition collect_inv (st : gset ParamKey * list Param) (done : list Param) : Prop :=
  (∀ k, k ∈ st.1 ↔ k ∈ param_key <$> st.2) ∧
  NoDup (param_key <$> st.2) ∧
  (∀ k, first_with_key k st.2 = first_with_key k done).

Section unicode.
Context {unicode : Unicode}.

(** [ch.lower() if ch.isalnum() else "_"], what the loop appends to [out]
    for one character. *)
Definition sanitize_char (ch : ascii) : string :=
  if isalnum ch then lower (String ch "") else "_".

Definition _sanitize_name (name : string) (max_length : Z) : string :=
  let joined := join_chars sanitize_char name in
  let clean := join "_" (filter (λ piece, piece ≠ "") (split "_" joined)) in
  let clean := if decide (clean = "") then "op" else clean in
  if (Z.of_nat (String.length clean) >? max_length)%Z
  then rstrip "_" (slice_to clean max_length)
  else clean.

(** An operation object under a verb key: [op.get("operationId")],
    [op.get("parameters", [])] and [op.get("requestBody") is not None]. *)
Record OperationObject := {
  operationId : option string;
  op_parameters : list Param;
  requestBody : bool;
}.

(** A path item: [path_item.get("parameters", [])] and [path_item.items()]
    in document order; the value of an item is [Some op] when it is a
    dict and [None] otherwise. *)
Record PathItem := {
  pi_parameters : list Param;
  pi_items : list (string * option OperationObject);
}.

(** [spec.get("paths", {}).items()] in document order. *)
Definition Paths : Type := list (string * PathItem).

(** What [_make_tool] captures for one registered tool. *)
Record Tool := {
  tool_name : string;
  method : string;
  path_template : string;
  required_path_params : list string;
  required_query_params : list string;
  optional_query_params : list string;
  has_request_body : bool;
}.

(** The mutable state of [register_openapi_tools]: the local set
    [seen_tool_names] and the tools handed to [mcp.tool], in order. *)
Record RegState := {
  seen_tool_names : gset string;
  registered : list Tool;
}.

(** Every registered name is in the seen set, and no name is registered
    twice. *)
Definition names_inv (st : RegState) : Prop :=
  NoDup (tool_name <$> registered st) ∧
  ∀ n, n ∈ tool_name <$> registered st → n ∈ seen_tool_names st.

(** Every registered name has at most [bound] characters. *)
Definition names_within (bound : nat) (st : RegState) : Prop :=
  Forall (λ t, String.length (tool_name t) ≤ bound) (registered st).

Definition http_verbs : list string := ["get"; "post"; "put"; "delete"; "patch"].

(** [[p["name"] for p in params if keep p]]; [p["name"]] raises
    [KeyError] when the key is absent. *)
Fixpoint names_where (keep : Param → bool) (params : list Param)
  : result (list string) :=
  match params with
  | [] => Ok []
  | p :: rest =>
      if keep p then
        match p_name p with
        | None => Raise (KeyError "name")
        | Some n => ns ← names_where keep rest; mret (n :: ns)
        end
      else names_where keep rest
  end.

Definition is_path (p : Param) : bool := bool_decide (p_in p = Some "path").
Definition is_required_query (p : Param) : bool :=
  bool_decide (p_in p = Some "query") && p_required p.
Definition is_optional_query (p : Param) : bool :=
  bool_decide (p_in p = Some "query") && negb (p_required p).

(** A [for] loop whose body may raise: the state reached so far is kept
    (the registry and the seen set are mutated in place). *)
Fixpoint for_each {A S : Type} (body : S → A → S * option Exn)
    (xs : list A) (s : S) : S * option Exn :=
  match xs with
  | [] => (s, None)
  | x :: rest =>
      match body s x with
      | (s', None) => for_each body rest s'
      | stopped => stopped
      end
  end.

(** Body of the loop over [path_item.items()]. *)
Definition register_operation (prefix : string) (max_name_len : Z)
    (path : string) (path_level_params : list Param)
    (st : RegState) (item : string * option OperationObject)
  : RegState * option Exn :=
  let method := item.1 in
  if negb (bool_decide (lower method ∈ http_verbs)) then (st, None)
  else match item.2 with
  | None => (st, None)
  | Some op =>
      let name_seed :=
        default (method +:+ "_" +:+ path) (truthy_str (operationId op)) in
      let tool_name := prefix +:+ "_" +:+ _sanitize_name name_seed max_name_len in
      if decide (tool_name ∈ seen_tool_names st) then (st, None)
      else
        let seen := {[ tool_name ]} ∪ seen_tool_names st in
        let all_params := _collect_parameters path_level_params (op_parameters op) in
        match
          required_path ← names_where is_path all_params;
          required_query ← names_where is_required_query all_params;
          optional_query ← names_where is_optional_query all_params;
          mret {| tool_name := tool_name;
                  method := method;
                  path_template := path;
                  required_path_params := required_path;
                  required_query_params := required_query;
                  optional_query_params := optional_query;
                  has_request_body := requestBody op |}
        with
        | Ok tool =>
            ({| seen_tool_names := seen;
                registered := registered st ++ [tool] |}, None)
        | Raise e =>
            ({| seen_tool_names := seen; registered := registered st |}, Some e)
        end
  end.

(** Body of the loop over [paths.items()]. *)
Definition register_path (prefix : string) (max_name_len : Z)
    (st : RegState) (entry : string * PathItem) : RegState * option Exn :=
  for_each
    (register_operation prefix max_name_len entry.1 (pi_parameters entry.2))
    (pi_items entry.2) st.

(** [register_openapi_tools]: the tools registered on [mcp], and the
    returned count or the exception that interrupted the loop.
    [tool_prefix or config.api.tool_prefix] selects the prefix.  The
    human-readable description passed to [mcp.tool] is not represented. *)
Definition register_openapi_tools (paths : Paths)
    (tool_prefix : option string) (config_tool_prefix : string)
  : list Tool * result nat :=
  let prefix := default config_tool_prefix (truthy_str tool_prefix) in
  let prefix_len := (Z.of_nat (String.length prefix) + 1)%Z in
  let max_name_len := (64 - prefix_len)%Z in
  let init := {| seen_tool_names := ∅; registered := [] |} in
  match for_each (register_path prefix max_name_len) paths init with
  | (st, None) => (registered st, Ok (size (seen_tool_names st)))
  | (st, Some e) => (registered st, Raise e)
  end.

(** An outgoing call [client.request(method, path, params=, json=,
    headers=)] and the response attributes the code reads. *)
Record Request := {
  rq_method : string;
  rq_path : string;
  rq_params : gmap string PyVal;
  rq_json : PyVal;
  rq_headers : option (gmap string PyVal);
}.

Record Response := {
  resp_status_code : Z;
  resp_text : string;
  resp_json : option PyVal;   (* [None]: [resp.json()] raises *)
}.

(** [resp.raise_for_status()] of httpx: anything but 2xx raises. *)
Definition raise_for_status (resp : Response) : result unit :=
  if ((200 <=? resp_status_code resp) && (resp_status_code resp <=? 299))%Z
  then Ok ()
  else Raise (HTTPStatusError (resp_status_code resp) (resp_text resp)).

(** [args[k]] *)
Definition getitem (args : gmap string PyVal) (k : string) : result PyVal :=
  match args !! k with
  | Some v => Ok v
  | None => Raise (KeyError k)
  end.

(** [[p for p in required if p not in args]] *)
Definition missing_in (args : gmap string PyVal) (required : list string)
  : list string :=
  filter (λ p, args !! p = None) required.

(** The dict comprehension over [required_query_params] followed by the
    loop over [optional_query_params]. *)
Definition add_required (args : gmap string PyVal)
    (query : gmap string PyVal) (k : string) : gmap string PyVal :=
  match args !! k with
  | Some v => <[ k := v ]> query
  | None => query
  end.

Definition add_optional (args : gmap string PyVal)
    (query : gmap string PyVal) (k : string) : gmap string PyVal :=
  match args !! k with
  | Some PyNone | None => query
  | Some v => <[ k := v ]> query
  end.

(** [query.update(auth)]: the entries of [auth] replace those of [query]. *)
Definition dict_update (query auth : gmap string PyVal) : gmap string PyVal :=
  auth ∪ query.

Definition build_query (required_query_params optional_query_params : list string)
    (args auth : gmap string PyVal) : gmap string PyVal :=
  let query := foldl (add_required args) ∅ required_query_params in
  let query := foldl (add_optional args) query optional_query_params in
  dict_update query auth.

(** What the caller supplies for the query name [k]: the argument of a
    required query parameter, or the argument of an optional one when it
    is present and not [None]. *)
Definition caller_query (required_query_params optional_query_params : list string)
    (args : gmap string PyVal) (k : string) : option PyVal :=
  if decide (k ∈ required_query_params) then args !! k
  else if decide (k ∈ optional_query_params) then
    match args !! k with
    | Some PyNone => None
    | o => o
    end
  else None.

(** The loop substituting the placeholders of the path template. *)
Fixpoint build_path (py_str : PyVal → string) (args : gmap string PyVal)
    (required_path_params : list string) (path : string) : result string :=
  match required_path_params with
  | [] => Ok path
  | p :: rest =>
      v ← getitem args p;
      build_path py_str args rest (replace ("{" +:+ p +:+ "}") (py_str v) path)
  end.

(** [_execute_request].  [py_str] is Python's [str]; [client] answers a
    request with a response or a transport exception; [auth_params] and
    [auth_headers] are what the two callables return or raise; [net] is the
    log of requests issued so far. *)
Definition _execute_request (py_str : PyVal → string)
    (client : Request → result Response)
    (method path_template : string)
    (required_path_params required_query_params optional_query_params : list string)
    (auth_params auth_headers : result (gmap string PyVal))
    (has_request_body : bool) (args : gmap string PyVal)
    (net : list Request) : result PyVal * list Request :=
  let missing_path := missing_in args required_path_params in
  if negb (bool_decide (missing_path = [])) then
    (Raise (ValueError MissingPath missing_path), net)
  else
  let missing_query := missing_in args required_query_params in
  if negb (bool_decide (missing_query = [])) then
    (Raise (ValueError MissingQuery missing_query), net)
  else
  match
    path ← build_path py_str args required_path_params path_template;
    auth ← auth_params;
    let query := build_query required_query_params optional_query_params args auth in
    headers ← auth_headers;
    let json_body :=
      if has_request_body then default PyNone (args !! "body") else PyNone in
    mret {| rq_method := upper method;
            rq_path := path;
            rq_params := query;
            rq_json := json_body;
            rq_headers := if decide (headers = ∅) then None else Some headers |}
  with
  | Raise e => (Raise e, net)
  | Ok request =>
      (resp ← client request;
       _ ← raise_for_status resp;
       mret (default (PyStr (resp_text resp)) (resp_json resp)),
       net ++ [request])
  end.

(** The characters a sanitised name is made of. *)
Definition name_char (c : ascii) : bool :=
  is_digit c || is_lower c || bool_decide (c = "_"%char).

Definition not_underscore (c : ascii) : bool := negb (bool_decide (c = "_"%char)).

(** Shape of a sanitised name, read from left to right; [after_sep] tells
    whether the previous character was an underscore (or the string starts
    here).  [separated_go] forbids an underscore after an underscore or at
    the start; [compact_go] moreover forbids one at the end. *)
Fixpoint separated_go (after_sep : bool) (s : string) : bool :=
  match s with
  | EmptyString => true
  | String c s' =>
      if decide (c = "_"%char) then negb after_sep && separated_go true s'
      else separated_go false s'
  end.

Fixpoint compact_go (after_sep : bool) (s : string) : bool :=
  match s with
  | EmptyString => negb after_sep
  | String c s' =>
      if decide (c = "_"%char) then negb after_sep && compact_go true s'
      else compact_go false s'
  end.

(** Loop invariant of a run of [register_openapi_tools] that has not
    raised: the seen set holds exactly the registered names. *)
Definition seen_inv (st : RegState) : Prop :=
  seen_tool_names st = list_to_set (tool_name <$> registered st) ∧
  NoDup (tool_name <$> registered st).

(** A registered tool comes from the operation [op] found under the key
    [verb] of the path item of [path]. *)
Definition tool_of (prefix : string) (paths : Paths) (t : Tool) : Prop :=
  ∃ item op,
    (path_template t, item) ∈ paths ∧
    (method t, Some op) ∈ pi_items item ∧
    lower (method t) ∈ http_verbs ∧
    String.prefix (prefix +:+ "_") (tool_name t) = true ∧
    has_request_body t = requestBody op ∧
    let all_params := _collect_parameters (pi_parameters item) (op_parameters op) in
    names_where is_path all_params = Ok (required_path_params t) ∧
    names_where is_required_query all_params = Ok (required_query_params t) ∧
    names_where is_optional_query all_params = Ok (optional_query_params t).

End unicode.

End openapi_tools.

(* ===================================================================== *)
(** * src/server.py                                                       *)
(* ===================================================================== *)

Module server.
Import Py.

(** [merged.setdefault(key, value)] *)
Definition setdefault (key : string) (value : PyVal)
    (merged : gmap string PyVal) : gmap string PyVal :=
  match merged !! key with
  | Some _ => merged
  | None => <[ key := value ]> merged
  end.

(** [_merge_auth]: [dict(params or {})], then one [setdefault] per item
    of the auth parameters. *)
Definition _merge_auth (params : option (gmap string PyVal))
    (auth : gmap string PyVal) : gmap string PyVal :=
  map_fold setdefault (default ∅ params) auth.

(** A Python [float] is an IEEE 754 binary64 value: 53 bits of mantissa,
    infinities at exponent 1024, every operation rounded to nearest, ties
    to even. *)
Definition float : Type := spec_float.
Definition prec : Z := 53.
Definition emax : Z := 1024.

Definition fmul : float → float → float := SFmul prec emax.
Definition fadd : float → float → float := SFadd prec emax.
Definition fsub : float → float → float := SFsub prec emax.

(** The conversion of an [int] operand in mixed arithmetic
    ([base_delay * (2 ** attempt)], [0 + x]): correctly rounded, and an
    [OverflowError] when the rounded value is not finite. *)
Definition float_of_int (n : Z) : result float :=
  match binary_normalize prec emax n 0 false with
  | S754_infinity _ => Raise (OverflowError IntTooLargeForFloat)
  | x => Ok x
  end.

(** [min(x, y)] on two floats: [y] when [y < x], otherwise [x]. *)
Definition fmin (x y : float) : float := if SFltb y x then y else x.


(** The literals [0.1], [1.0] and [30.0]. *)
Definition tenth : float := S754_finite false 7205759403792794 (-56).
Definition one : float := S754_finite false 4503599627370496 (-52).
Definition thirty : float := S754_finite false 8444249301319680 (-48).

Definition RETRY_MAX_ATTEMPTS : Z := 3.
Definition RETRY_BASE_DELAY : float := one.
Definition RETRY_MAX_DELAY : float := thirty.
Definition RETRYABLE_STATUS_CODES : list Z := [429; 500; 502; 503; 504]%Z.

(** What [with_retry] does to the outside: calls of [func], draws from
    the random source, and the delays handed to [asyncio.sleep]. *)
Record RetryWorld := {
  calls : nat;
  draws : nat;
  sleeps : list float;
}.

Definition fresh : RetryWorld := {| calls := 0; draws := 0; sleeps := [] |}.

(** One more call of [func] has been made. *)
Definition called (w : RetryWorld) : RetryWorld :=
  {| calls := S (calls w); draws := draws w; sleeps := sleeps w |}.

(** [random.uniform(a, b)] is [a + (b - a) * self.random()]; here [a] is
    the [int] 0, converted to [0.0] by both operations. *)
Definition uniform (a b u : float) : float := fadd a (fmul (fsub b a) u).

(** [min(base_delay * (2 ** attempt), max_delay)]: the power is an [int]
    and is converted to [float] for the product. *)
Definition backoff (base_delay max_delay : float) (attempt : Z) : result float :=
  power ← float_of_int (2 ^ attempt);
  mret (fmin (fmul base_delay power) max_delay).

(** [delay + jitter] with [u] the value drawn by [random.random()]. *)
Definition total_delay (base_delay max_delay : float) (attempt : Z) (u : float)
  : result float :=
  delay ← backoff base_delay max_delay attempt;
  let jitter := uniform (S754_zero false) (fmul delay tenth) u in
  mret (fadd delay jitter).

Section with_retry.
Context {T : Type}.
(** [func k] is the outcome of the [k]-th call of [func] (from 0);
    [random k] the [k]-th value of [random.random()]. *)
Variable func : nat → result T.
Variable random : nat → float.
Variable max_attempts : Z.
Variables base_delay max_delay : float.
Variable retryable_status : list Z.

(** The two retrying [except] clauses share this tail: compute the
    delay, draw the jitter, and sleep unless this was the last attempt.
    The delay is computed first, so an [OverflowError] of the conversion
    leaves the random source and the sleeps as they are. *)
Definition back_off (attempt : Z) (w : RetryWorld) : result RetryWorld :=
  total ← total_delay base_delay max_delay attempt (random (draws w));
  mret {| calls := calls w;
          draws := S (draws w);
          sleeps := if (attempt <? max_attempts - 1)%Z
                    then sleeps w ++ [total] else sleeps w |}.

(** The [for attempt in range(max_attempts)] loop; [remaining] counts
    the iterations left.  An exception raised inside an [except] clause
    leaves the function. *)
Fixpoint retry_loop (remaining : nat) (attempt : Z)
    (last_exception : option Exn) (w : RetryWorld) : result T * RetryWorld :=
  match remaining with
  | O =>
      match last_exception with
      | Some exc => (Raise exc, w)
      | None => (Raise (RuntimeError "with_retry: no se ejecutó ningún intento"), w)
      end
  | S remaining' =>
      let w1 := called w in
      let retry exc :=
        match back_off attempt w1 with
        | Ok w2 => retry_loop remaining' (attempt + 1)%Z (Some exc) w2
        | Raise overflow => (Raise overflow, w1)
        end in
      match func (calls w) with
      | Ok v => (Ok v, w1)
      | Raise (HTTPStatusError status_code text as exc) =>
          if negb (bool_decide (status_code ∈ retryable_status))
          then (Raise exc, w1)
          else retry exc
      | Raise (ConnectError _ as exc) | Raise (TimeoutException _ as exc) =>
          retry exc
      | Raise exc => (Raise exc, w1)
      end
  end.

Definition with_retry (w : RetryWorld) : result T * RetryWorld :=
  retry_loop (Z.to_nat max_attempts) 0%Z None w.

(** Loop invariant: the [i]-th delay slept is the one computed for
    attempt [i] with the [i]-th draw; attempt [i] is not the last one, and
    its power of two is a float. *)
Definition delays_ok (w : RetryWorld) : Prop :=
  ∀ i d, sleeps w !! i = Some d →
         i < 1024 ∧ (Z.of_nat i < max_attempts - 1)%Z ∧
         total_delay base_delay max_delay (Z.of_nat i) (random i) = Ok d.

Definition at_loop_head (remaining : nat) (attempt : Z) (w : RetryWorld) : Prop :=
  attempt = Z.of_nat (calls w) ∧
  calls w ≤ 1024 ∧
  draws w = calls w ∧
  remaining + calls w = Z.to_nat max_attempts ∧
  length (sleeps w) = calls w `min` (Z.to_nat max_attempts - 1) ∧
  delays_ok w.

Definition at_exit (w : RetryWorld) : Prop :=
  calls w ≤ Z.to_nat max_attempts ∧
  length (sleeps w) = calls w - 1 ∧
  delays_ok w.

(** The exceptions after which the loop goes on to the next attempt. *)
Definition retried (exc : Exn) : bool :=
  match exc with
  | HTTPStatusError status_code _ => bool_decide (status_code ∈ retryable_status)
  | ConnectError _ | TimeoutException _ => true
  | _ => false
  end.

(** [last_exception] after [k] failed calls starting with call [c]. *)
Definition last_failure (c k : nat) (last_exception : option Exn) : option Exn :=
  match k with
  | O => last_exception
  | S k' =>
      match func (c + k') with
      | Raise exc => Some exc
      | Ok _ => last_exception
      end
  end.

End with_retry.

End server.

(* ===================================================================== *)
(** * src/config.py and src/auth_gateway.py                               *)
(* ===================================================================== *)

Module auth_gateway.
Import Py.

Record CredentialMapping := {
  name : string;
  query_param : option string;
  header : option string;
  prefix : string;
}.

(** The parts of [MCPConfig] the gateway client reads:
    [config.auth.gateway_endpoint], [config.auth.credentials_format] and
    [config.service.display_name]. *)
Record Config := {
  gateway_endpoint : string;
  credentials_format : list CredentialMapping;
  display_name : string;
}.

(** A [datetime] is an instant counted in microseconds from [datetime.min],
    0001-01-01T00:00:00; the last one is [datetime.max],
    9999-12-31T23:59:59.999999, 3652059 days later. *)
Definition DATETIME_MAX : Z := (3652059 * 86400 * 1000000 - 1)%Z.

Definition in_datetime_range (t : Z) : bool :=
  ((0 <=? t) && (t <=? DATETIME_MAX))%Z.

(** [timedelta(seconds=n)] for an [int]: a duration in microseconds;
    durations of more than 999999999 days, either way, are refused. *)
Definition timedelta (seconds : Z) : result Z :=
  if (Z.abs (seconds / 86400) >? 999999999)%Z
  then Raise (OverflowError TimedeltaTooLarge)
  else Ok (seconds * 1000000)%Z.

(** [t + delta] for a [datetime] and a [timedelta]. *)
Definition datetime_add (t delta : Z) : result Z :=
  if in_datetime_range (t + delta) then Ok (t + delta)%Z
  else Raise (OverflowError DateOutOfRange).

(** [APICredentials]: [fetched_at] is a [datetime], [ttl_seconds] an
    [int]. *)
Record APICredentials := {
  credentials : gmap string PyVal;
  fetched_at : Z;
  ttl_seconds : Z;
}.

(** [expires_at]: [self.fetched_at + timedelta(seconds=self.ttl_seconds)] *)
Definition expires_at (c : APICredentials) : result Z :=
  delta ← timedelta (ttl_seconds c); datetime_add (fetched_at c) delta.

(** [is_expired], with [utcnow] the reading of [datetime.utcnow()]. *)
Definition is_expired (utcnow : Z) (c : APICredentials) : result bool :=
  expiry ← expires_at c; Ok (utcnow >? expiry)%Z.

(** The value projected for one mapping: [f"{prefix}{value}"] when the
    prefix is non-empty. *)
Definition projected (py_str : PyVal → string) (m : CredentialMapping)
    (value : PyVal) : PyVal :=
  if decide (prefix m = "") then value else PyStr (prefix m +:+ py_str value).

Definition to_auth_params (py_str : PyVal → string) (config : Config)
    (c : APICredentials) : gmap string PyVal :=
  foldl (λ params m,
           match credentials c !! name m, truthy_str (query_param m) with
           | Some value, Some q => <[ q := projected py_str m value ]> params
           | _, _ => params
           end) ∅ (credentials_format config).

Definition to_auth_headers (py_str : PyVal → string) (config : Config)
    (c : APICredentials) : gmap string PyVal :=
  foldl (λ headers m,
           match credentials c !! name m, truthy_str (header m) with
           | Some value, Some h => <[ h := projected py_str m value ]> headers
           | _, _ => headers
           end) ∅ (credentials_format config).

(** [AuthGatewayService]: configuration fields and the two mutable
    attributes [_cache] and [_current_jwt]. *)
Record Service := {
  gateway_url : string;
  api_key : string;
  cache_ttl_seconds : Z;
  timeout : Q;
  _cache : gmap string APICredentials;
  _current_jwt : option string;
}.

Definition set_session (s : Service) (cache : gmap string APICredentials)
    (jwt : option string) : Service :=
  {| gateway_url := gateway_url s; api_key := api_key s;
     cache_ttl_seconds := cache_ttl_seconds s; timeout := timeout s;
     _cache := cache; _current_jwt := jwt |}.

(** The [GET] sent to the gateway and the response attributes read. *)
Record GatewayRequest := {
  url : string;
  authorization : string;
  x_api_key : string;
}.

Record GatewayResponse := {
  gw_status_code : Z;
  gw_text : string;
  gw_json : option PyVal;   (* [None]: [response.json()] raises *)
}.

(** The outside of the service: the UTC clock and the requests sent to
    the gateway so far. *)
Record World := {
  utcnow : Z;
  fetches : list GatewayRequest;
}.

(** The gateway as the client sees it: the answer to the [k]-th request,
    or the exception [client.get] raises, and the time the exchange takes. *)
Record Gateway := {
  answer : nat → GatewayRequest → result GatewayResponse;
  latency : nat → Z;
}.

Definition type_name (v : PyVal) : string :=
  match v with
  | PyNone => "NoneType"
  | PyBool _ => "bool"
  | PyInt _ => "int"
  | PyStr _ => "str"
  | PyList _ => "list"
  | PyDict _ => "dict"
  end.

(** [response.text[:200] if response.text else None] *)
Definition text_details (text : string) : Details :=
  if decide (text = "") then NoDetails else ResponseText (take 200 text).

Definition gateway_error (msg : string) (code : option Z) (d : Details) : Exn :=
  GatewayError {| message := msg; status_code := code; details := d |}.

(** The error raised for a 404: no credentials are registered for this
    user and service. *)
Definition not_configured (service_name : string) : Exn :=
  gateway_error
    ("No tienes credenciales de " +:+ service_name +:+ " configuradas en Auth Gateway. "
     +:+ "Por favor, añade tus credenciales en el panel de Auth Gateway.")
    (Some 404%Z) NoDetails.

(** The request [client.get(url, headers=headers)] sends. *)
Definition gateway_request (config : Config) (s : Service) (jwt : string)
  : GatewayRequest :=
  {| url := gateway_url s +:+ gateway_endpoint config;
     authorization := "Bearer " +:+ jwt;
     x_api_key := api_key s |}.

(** The status checks and the decoding of the body, inside the [try]. *)
Definition read_response (config : Config) (s : Service) (utcnow : Z)
    (response : GatewayResponse) : result APICredentials :=
  let service_name := display_name config in
  let status := gw_status_code response in
  if (status =? 401)%Z then
    Raise (gateway_error
      "JWT inválido o expirado. Por favor, vuelve a hacer login." (Some 401%Z) NoDetails)
  else if (status =? 403)%Z then
    Raise (gateway_error
      ("No tienes permisos para acceder a las credenciales de " +:+ service_name +:+ ".")
      (Some 403%Z) NoDetails)
  else if (status =? 404)%Z then
    Raise (not_configured service_name)
  else if (status >=? 500)%Z then
    Raise (gateway_error "Auth Gateway no disponible. Inténtalo más tarde."
      (Some status) (text_details (gw_text response)))
  else if negb ((200 <=? status) && (status <=? 299))%Z then
    (* [raise_for_status] raises [HTTPStatusError], caught below the [try] *)
    Raise (gateway_error "Error HTTP del Auth Gateway"
      (Some status) (text_details (gw_text response)))
  else
    match gw_json response with
    | None => Raise JSONDecodeError
    | Some (PyDict data) =>
        match default (PyDict data) (data !! "data") with
        | PyDict creds_data =>
            let expected_creds := name <$> credentials_format config in
            let missing := filter (λ c, creds_data !! c = None) expected_creds in
            if negb (bool_decide (missing = [])) then
              Raise (gateway_error
                "Respuesta inválida del Auth Gateway: faltan credenciales"
                None (MissingCredentials missing))
            else
              Ok {| credentials := creds_data;
                    fetched_at := utcnow;
                    ttl_seconds := cache_ttl_seconds s |}
        | other =>
            Raise (gateway_error
              "Respuesta inválida del Auth Gateway: formato incorrecto"
              None (ReceivedType (type_name other)))
        end
    | Some other =>
        Raise (AttributeError
          ("'" +:+ type_name other +:+ "' object has no attribute 'get'"))
    end.

(** [_fetch_from_gateway]: one request is sent; transport exceptions are
    turned into [AuthGatewayError], any other exception passes through. *)
Definition _fetch_from_gateway (gw : Gateway) (config : Config)
    (s : Service) (jwt : string) (w : World) : result APICredentials * World :=
  let request := gateway_request config s jwt in
  let k := length (fetches w) in
  let w' := {| utcnow := (utcnow w + latency gw k)%Z;
               fetches := fetches w ++ [request] |} in
  match answer gw k request with
  | Ok response => (read_response config s (utcnow w') response, w')
  | Raise (ConnectError text) =>
      (Raise (gateway_error
         ("No se pudo conectar con Auth Gateway (" +:+ gateway_url s +:+ ")")
         None (ExceptionText text)), w')
  | Raise (TimeoutException _) =>
      (Raise (gateway_error "Timeout al conectar con Auth Gateway"
         None (TimeoutAfter (timeout s))), w')
  | Raise (HTTPStatusError status text) =>
      (Raise (gateway_error "Error HTTP del Auth Gateway"
         (Some status) (text_details text)), w')
  | Raise e => (Raise e, w')
  end.

(** [authenticate]: the cache is consulted first; after a fetch the
    credentials are stored and made the active session, and only then is
    their [expires_at] computed, for the log record [auth_credentials_cached]. *)
Definition authenticate (gw : Gateway) (config : Config) (jwt : string)
    (s : Service) (w : World) : result APICredentials * Service * World :=
  let fetch :=
    match _fetch_from_gateway gw config s jwt w with
    | (Ok credentials, w') =>
        let stored := set_session s (<[ jwt := credentials ]> (_cache s)) (Some jwt) in
        match expires_at credentials with
        | Ok _ => (Ok credentials, stored, w')
        | Raise e => (Raise e, stored, w')
        end
    | (Raise e, w') => (Raise e, s, w')
    end in
  match _cache s !! jwt with
  | Some cached =>
      match is_expired (utcnow w) cached with
      | Ok false => (Ok cached, set_session s (_cache s) (Some jwt), w)
      | Ok true => fetch
      | Raise e => (Raise e, s, w)
      end
  | None => fetch
  end.

(** [current_credentials] *)
Definition current_credentials (s : Service) (w : World)
  : result (option APICredentials) :=
  match truthy_str (_current_jwt s) with
  | None => Ok None
  | Some jwt =>
      match _cache s !! jwt with
      | Some creds =>
          expired ← is_expired (utcnow w) creds;
          Ok (if expired : bool then None else Some creds)
      | None => Ok None
      end
  end.

(** [is_authenticated] *)
Definition is_authenticated (s : Service) (w : World) : result bool :=
  match truthy_str (_current_jwt s) with
  | None => Ok false
  | Some jwt =>
      match _cache s !! jwt with
      | Some creds => expired ← is_expired (utcnow w) creds; Ok (negb expired)
      | None => Ok false
      end
  end.

Definition not_authenticated : Exn :=
  gateway_error
    ("No hay credenciales configuradas. "
     +:+ "Usa la herramienta 'set_auth_token' con tu JWT primero.")
    None NoDetails.

(** [get_auth_params] and [get_auth_headers] *)
Definition get_auth_params (py_str : PyVal → string) (config : Config)
    (s : Service) (w : World) : result (gmap string PyVal) :=
  creds ← current_credentials s w;
  match creds with
  | Some creds => Ok (to_auth_params py_str config creds)
  | None => Raise not_authenticated
  end.

Definition get_auth_headers (py_str : PyVal → string) (config : Config)
    (s : Service) (w : World) : result (gmap string PyVal) :=
  creds ← current_credentials s w;
  match creds with
  | Some creds => Ok (to_auth_headers py_str config creds)
  | None => Raise not_authenticated
  end.

(** [clear_cache] and [logout] *)
Definition clear_cache (jwt : option string) (s : Service) : Service :=
  match truthy_str jwt with
  | Some j =>
      set_session s (delete j (_cache s))
        (if decide (_current_jwt s = Some j) then None else _current_jwt s)
  | None => set_session s ∅ None
  end.

Definition logout (s : Service) : Service :=
  match truthy_str (_current_jwt s) with
  | Some j => clear_cache (Some j) s
  | None => s
  end.

End auth_gateway.

(* ===================================================================== *)
(** * src/tool_policies.py                                                *)
(* ===================================================================== *)

Module tool_policies.
Import Py.

Inductive RiskLevel := LOW | MEDIUM | HIGH | CRITICAL.
Inductive ToolAction := ALLOW | ALLOW_WITH_LOGGING | REQUIRE_CONFIRMATION | BLOCK.

Global Instance RiskLevel_eq_dec : EqDecision RiskLevel.
Proof. solve_decision. Defined.
Global Instance ToolAction_eq_dec : EqDecision ToolAction.
Proof. solve_decision. Defined.

(** [config.policies] *)
Record PoliciesConfig := {
  blocked_patterns : list string;
  require_confirmation : list string;
  audit_all : bool;
}.

Section policies.
(** [re_search pattern text] tells whether
    [re.search(pattern, text, re.IGNORECASE)] finds a match; patterns
    are valid regular expressions.  The two flags are the module
    constants read from the environment at import time. *)
Context {unicode : Unicode}.
Variable re_search : string → string → bool.
Variable ENABLE_CRITICAL_TOOLS : bool.
Variable DISABLE_OPERATION_LOGGING : bool.
Variable config : PoliciesConfig.

Fixpoint _matches_pattern (tool_name : string) (patterns : list string) : bool :=
  match patterns with
  | [] => false
  | pattern :: rest =>
      if re_search pattern tool_name then true
      else _matches_pattern tool_name rest
  end.

Definition is_tool_blocked (tool_name : string) : bool :=
  if ENABLE_CRITICAL_TOOLS then false
  else _matches_pattern tool_name (blocked_patterns config).

Definition get_tool_policy (tool_name : string) : RiskLevel * ToolAction :=
  if _matches_pattern tool_name (blocked_patterns config) then (CRITICAL, BLOCK)
  else if _matches_pattern tool_name (require_confirmation config)
  then (HIGH, REQUIRE_CONFIRMATION)
  else
    let tool_lower := lower tool_name in
    if contains "_get_" tool_lower || startswith tool_lower "get_"
    then (LOW, ALLOW)
    else if contains "_delete_" tool_lower || startswith tool_lower "delete_"
    then (MEDIUM, ALLOW_WITH_LOGGING)
    else (LOW, ALLOW_WITH_LOGGING).

Definition requires_confirmation (tool_name : string) : bool :=
  if _matches_pattern tool_name (require_confirmation config) then true
  else bool_decide ((get_tool_policy tool_name).2 = REQUIRE_CONFIRMATION).

Definition should_log_operation (tool_name : string) : bool :=
  if DISABLE_OPERATION_LOGGING then false
  else if audit_all config then true
  else
    let action := (get_tool_policy tool_name).2 in
    bool_decide (action = ALLOW_WITH_LOGGING ∨ action = REQUIRE_CONFIRMATION).

Definition get_blocked_tools_list : list string :=
  if ENABLE_CRITICAL_TOOLS then [] else blocked_patterns config.

End policies.

Definition SENSITIVE_KEYS : list string :=
  ["key"; "token"; "password"; "secret"; "credential"; "api_key"; "apikey"].
Definition TRUNCATE_KEYS : list string :=
  ["desc"; "description"; "text"; "body"; "content"].
Definition MAX_VALUE_LENGTH : nat := 100.
Definition REDACTED : PyVal := PyStr "[REDACTED]".

(** [any(s in key_lower for s in keys)] *)
Definition any_in (keys : list string) (key_lower : string) : bool :=
  existsb (λ s, contains s key_lower) keys.

(** [isinstance(value, str) and len(value) > MAX_VALUE_LENGTH], with the
    string when it holds; [len] counts characters, one code each. *)
Definition long_str (value : PyVal) : option string :=
  match value with
  | PyStr text => if (MAX_VALUE_LENGTH <? String.length text)%nat then Some text else None
  | _ => None
  end.

Definition truncated (text : string) : PyVal :=
  PyStr (take MAX_VALUE_LENGTH text +:+ "...").

Section filter.
Context {unicode : Unicode}.

(** Body of the loop of [_filter_sensitive_params]: the value stored in
    [filtered[key]]. *)
Definition filter_entry (key : string) (value : PyVal) : PyVal :=
  let key_lower := lower key in
  if any_in SENSITIVE_KEYS key_lower then REDACTED
  else
    match (if any_in TRUNCATE_KEYS key_lower then long_str value else None) with
    | Some text => truncated text
    | None =>
        match long_str value with
        | Some text => truncated text
        | None => value
        end
    end.

Definition _filter_sensitive_params (params : gmap string PyVal)
  : gmap string PyVal :=
  map_imap (λ key value, Some (filter_entry key value)) params.

(** The structured record handed to the logger, and the logger method
    receiving it ([warning] for a failed call, [info] otherwise). *)
Inductive LogLevel := LogInfo | LogWarning.

Record LogRecord := {
  log_level : LogLevel;
  log_event : string;
  log_tool : string;
  log_risk_level : RiskLevel;
  log_action : ToolAction;
  log_params : gmap string PyVal;
  log_result : option string;
  log_error : option string;
}.

(** [log_tool_execution]: the record emitted, if any. *)
Definition log_tool_execution (re_search : string → string → bool)
    (DISABLE_OPERATION_LOGGING : bool) (config : PoliciesConfig)
    (tool_name : string) (params : option (gmap string PyVal))
    (result_summary error : option string) : option LogRecord :=
  if DISABLE_OPERATION_LOGGING then None
  else if negb (should_log_operation re_search DISABLE_OPERATION_LOGGING config tool_name)
  then None
  else
    let policy := get_tool_policy re_search config tool_name in
    let safe_params :=
      match params with
      | Some d => if decide (d = ∅) then ∅ else _filter_sensitive_params d
      | None => ∅
      end in
    let failed := is_Some (truthy_str error) in
    Some {| log_level := if bool_decide failed then LogWarning else LogInfo;
            log_event := if bool_decide failed then "tool_execution_failed" else "tool_executed";
            log_tool := tool_name;
            log_risk_level := policy.1;
            log_action := policy.2;
            log_params := safe_params;
            log_result := truthy_str result_summary;
            log_error := truthy_str error |}.

End filter.

End tool_policies.

(* ===================================================================== *)
(** * src/server.py: authentication, [api_request] and the session tools  *)
(* ===================================================================== *)

Module server_tools.
Import Py openapi_tools auth_gateway.

Section unicode.
Context {unicode : Unicode}.

Definition nl : string := String "010"%char "".

(** The message of the [RuntimeError] raised by [_require_auth];
    [url] is [AUTH_GATEWAY_URL]. *)
Definition auth_required_message (url : string) : string :=
  "Autenticación requerida." +:+ nl +:+ nl
  +:+ "Este MCP requiere autenticación via Auth Gateway." +:+ nl
  +:+ "Pasos:" +:+ nl
  +:+ "  1. Haz login en Auth Gateway para obtener tu JWT" +:+ nl
  +:+ "  2. Llama a la herramienta 'set_auth_token' con tu JWT" +:+ nl
  +:+ "  3. Luego podrás usar las demás herramientas" +:+ nl +:+ nl
  +:+ "Auth Gateway: " +:+ url.

(** [_require_auth], on the global service [s]; [w] gives the clock when
    [is_authenticated] is read. *)
Definition _require_auth (url : string) (s : Service) (w : World) : result unit :=
  authenticated ← is_authenticated s w;
  if authenticated : bool then Ok ()
  else Raise (RuntimeError (auth_required_message url)).

(** [_auth_params] and [_auth_headers]: the clock is read once by
    [_require_auth] ([w1]) and once more by the getter ([w2]). *)
Definition _auth_params (py_str : PyVal → string) (config : Config) (url : string)
    (s : Service) (w1 w2 : World) : result (gmap string PyVal) :=
  _ ← _require_auth url s w1; get_auth_params py_str config s w2.

Definition _auth_headers (py_str : PyVal → string) (config : Config) (url : string)
    (s : Service) (w1 w2 : World) : result (gmap string PyVal) :=
  _ ← _require_auth url s w1; get_auth_headers py_str config s w2.

(** What one call of [_do_request] meets: the clock at its four readings
    (two for the headers, two for the parameters) and the answer of the
    HTTP client. *)
Record Attempt := {
  at_headers_check : World;
  at_headers : World;
  at_params_check : World;
  at_params : World;
  client : Request → result Response;
}.

(** [_do_request], the closure of [api_request]. *)
Definition _do_request (py_str : PyVal → string) (config : Config) (url : string)
    (s : Service) (method path : string) (params : option (gmap string PyVal))
    (json : option PyVal) (a : Attempt) : result Response :=
  headers ← _auth_headers py_str config url s (at_headers_check a) (at_headers a);
  auth ← _auth_params py_str config url s (at_params_check a) (at_params a);
  resp ← client a
    {| rq_method := upper method;
       rq_path := path;
       rq_params := server._merge_auth params auth;
       rq_json := default PyNone json;
       rq_headers := if decide (headers = ∅) then None else Some headers |};
  _ ← raise_for_status resp;
  mret resp.

(** [str(e)] of an [AuthGatewayError]; a status code of 0 is falsy. *)
Definition gateway_error_str (e : AuthGatewayError) : string :=
  match status_code e with
  | Some code =>
      if (code =? 0)%Z then "Auth Gateway Error: " +:+ message e
      else "Auth Gateway Error (" +:+ str_scalar (PyInt code) +:+ "): " +:+ message e
  | None => "Auth Gateway Error: " +:+ message e
  end.

(** The [detail] of the [HTTPException] raised by [api_request], by the
    template that builds it: [str(exc)] of a gateway error,
    "Error de API (<status>): <text>", "Error de conexión con la API: <exc>"
    and "Error al conectar con la API: <exc>". *)
Inductive ApiDetail :=
| AuthDetail (text : string)
| ApiErrorDetail (status : Z) (text : string)
| ConnectionDetail (exc : Exn)
| OtherDetail (exc : Exn).

(** How [api_request] ends: a value, an exception raised before the [try],
    or an [HTTPException]. *)
Inductive ApiOutcome :=
| ApiReturn (v : PyVal)
| ApiRaise (exc : Exn)
| ApiHTTPException (status : Z) (detail : ApiDetail).

(** The [except] clauses of [api_request], in order. *)
Definition http_exception_of (exc : Exn) : ApiOutcome :=
  match exc with
  | GatewayError e => ApiHTTPException 401 (AuthDetail (gateway_error_str e))
  | HTTPStatusError status text => ApiHTTPException 502 (ApiErrorDetail status text)
  | ConnectError _ | TimeoutException _ => ApiHTTPException 502 (ConnectionDetail exc)
  | _ => ApiHTTPException 502 (OtherDetail exc)
  end.

(** [api_request].  [w0] gives the clock at the first [_require_auth],
    [attempts k] is what the [k]-th call of [_do_request] meets, [random]
    feeds the jitter; the retry settings are the module defaults. *)
Definition api_request (py_str : PyVal → string) (config : Config) (url : string)
    (s : Service) (w0 : World) (attempts : nat → Attempt)
    (random : nat → server.float)
    (method path : string) (params : option (gmap string PyVal))
    (json : option PyVal) : ApiOutcome * server.RetryWorld :=
  match _require_auth url s w0 with
  | Raise exc => (ApiRaise exc, server.fresh)
  | Ok _ =>
      let func k := _do_request py_str config url s method path params json (attempts k) in
      match server.with_retry func random server.RETRY_MAX_ATTEMPTS
              server.RETRY_BASE_DELAY server.RETRY_MAX_DELAY
              server.RETRYABLE_STATUS_CODES server.fresh with
      | (Ok resp, w) => (ApiReturn (default (PyStr (resp_text resp)) (resp_json resp)), w)
      | (Raise exc, w) => (http_exception_of exc, w)
      end
  end.

(** The dictionary returned by [set_auth_token]: [error] is a fixed text,
    [str(e)] of a gateway error, or "Error inesperado: <str(e)>". *)
Inductive TokenError :=
| ErrorText (text : string)
| UnexpectedError (exc : Exn).

Record TokenReply := {
  reply_success : bool;
  reply_message : option string;
  reply_error : option TokenError;
  reply_expire_at : option Z;
}.

Definition token_failure (e : TokenError) : TokenReply :=
  {| reply_success := false; reply_message := None;
     reply_error := Some e; reply_expire_at := None |}.

(** [set_auth_token]: [credentials.expires_at] is computed inside the
    [try], for the log record and the reply. *)
Definition set_auth_token (gw : Gateway) (config : Config) (jwt : string)
    (s : Service) (w : World) : TokenReply * Service * World :=
  if bool_decide (jwt = "") || bool_decide (strip jwt = "") then
    (token_failure
       (ErrorText "JWT vacío. Proporciona un JWT válido obtenido de Auth Gateway."),
     s, w)
  else
    match authenticate gw config (strip jwt) s w with
    | (Ok credentials, s', w') =>
        match expires_at credentials with
        | Ok expiry =>
            ({| reply_success := true;
                reply_message := Some "Autenticado correctamente via Auth Gateway";
                reply_error := None;
                reply_expire_at := Some expiry |}, s', w')
        | Raise exc => (token_failure (UnexpectedError exc), s', w')
        end
    | (Raise (GatewayError e), s', w') =>
        (token_failure (ErrorText (gateway_error_str e)), s', w')
    | (Raise exc, s', w') => (token_failure (UnexpectedError exc), s', w')
    end.

(** The [logout] tool: its message, or the exception raised while
    [is_authenticated] is read, and the service afterwards. *)
Definition logout_tool (s : Service) (w : World) : result string * Service :=
  match is_authenticated s w with
  | Ok was_authenticated =>
      (Ok (if was_authenticated then "Sesión cerrada" else "No había sesión activa"),
       logout s)
  | Raise exc => (Raise exc, s)
  end.

(** [get_auth_status]: the clock is read by [current_credentials] ([w1])
    and again by [creds.is_expired] ([w2]). *)
Record AuthStatus := {
  authenticated : bool;
  status_expire_at : option Z;
  status_message : string;
}.

Definition not_authenticated_status : AuthStatus :=
  {| authenticated := false; status_expire_at := None;
     status_message :=
       "No autenticado. Usa 'set_auth_token' con tu JWT para autenticarte." |}.

Definition get_auth_status (s : Service) (w1 w2 : World) : result AuthStatus :=
  creds ← current_credentials s w1;
  match creds with
  | Some creds =>
      expired ← is_expired (utcnow w2) creds;
      if negb (expired : bool) then
        expiry ← expires_at creds;
        Ok {| authenticated := true;
              status_expire_at := Some expiry;
              status_message := "Autenticado correctamente via Auth Gateway" |}
      else Ok not_authenticated_status
  | None => Ok not_authenticated_status
  end.

End unicode.

End server_tools.

(* ===================================================================== *)
(** * Concrete inputs used by the examples below                          *)
(* ===================================================================== *)

Module examples.
Import Py openapi_tools.

(** An alphabet whose characters outside ASCII are symbols (arrows, box
    drawing, currency signs): none is alphanumeric or white space, and
    none has a case mapping. *)
Definition symbols : Unicode :=
  {| unicode_isalnum := λ _, false;
     unicode_isspace := λ _, false;
     unicode_lower := map_chars ascii_lower;
     unicode_upper := map_chars ascii_upper |}.

#[local] Existing Instance symbols.

(** A table with two characters outside ASCII: code 200 stands for the
    capital I with dot above (U+0130), which is alphanumeric and whose
    lower-case form is [i] followed by the combining dot above (U+0307);
    code 201 stands for that combining dot, which is not alphanumeric. *)
Definition dotted_capital_i : Unicode :=
  {| unicode_isalnum := λ c, bool_decide (c = "200"%char);
     unicode_isspace := λ _, false;
     unicode_lower :=
       join_chars (λ c, if decide (c = "200"%char)
                        then String "i" (String "201" "")
                        else String (ascii_lower c) "");
     unicode_upper := map_chars ascii_upper |}.

(** A query parameter declared optional on the path item and required on
    the operation. *)
Definition limit_on_path : Param :=
  {| p_name := Some "limit"; p_in := Some "query"; p_required := false |}.
Definition limit_on_operation : Param :=
  {| p_name := Some "limit"; p_in := Some "query"; p_required := true |}.

Definition id_in_path : Param :=
  {| p_name := Some "id"; p_in := Some "path"; p_required := true |}.

(** The path [/items/{id}] of the sample specification of the test
    fixtures, with its [get] and [delete] operations. *)
Definition sample_paths : Paths :=
  [("/items/{id}",
    {| pi_parameters := [id_in_path];
       pi_items :=
         [("parameters", None);
          ("get", Some {| operationId := Some "getItem";
                          op_parameters := []; requestBody := false |});
          ("delete", Some {| operationId := Some "deleteItem";
                             op_parameters := []; requestBody := false |})] |})].

(** A tool prefix of 64 characters. *)
Definition long_prefix : string :=
  "acme_corporation_internal_inventory_and_billing_platform_prod_v2".

(** A client that answers every request with [200 OK] and an empty body. *)
Definition ok_client (_ : Request) : result Response :=
  Ok {| resp_status_code := 200; resp_text := "{}"; resp_json := Some (PyDict ∅) |}.

(** An upstream that answers every call with [503 Service Unavailable],
    and a random source that always draws one half. *)
Definition always_503 (_ : nat) : result PyVal :=
  Raise (HTTPStatusError 503 "Service Unavailable").
Definition half (_ : nat) : server.float := S754_finite false 4503599627370496 (-53).


(** A gateway configured for one credential, projected onto the query
    parameter [key]; a gateway that always answers with that credential,
    and one that always answers 404. *)
Definition one_credential : auth_gateway.Config :=
  {| auth_gateway.gateway_endpoint := "/credentials/myservice";
     auth_gateway.credentials_format :=
       [{| auth_gateway.name := "api_key";
           auth_gateway.query_param := Some "key";
           auth_gateway.header := None;
           auth_gateway.prefix := "" |}];
     auth_gateway.display_name := "My Service" |}.

Definition new_service : auth_gateway.Service :=
  {| auth_gateway.gateway_url := "https://test-auth-gateway.com";
     auth_gateway.api_key := "test-api-key";
     auth_gateway.cache_ttl_seconds := 3600;
     auth_gateway.timeout := 30;
     auth_gateway._cache := ∅;
     auth_gateway._current_jwt := None |}.

(** The same service with a cache TTL of [10 ** 12] seconds, some 31688
    years. *)
Definition everlasting_service : auth_gateway.Service :=
  {| auth_gateway.gateway_url := "https://test-auth-gateway.com";
     auth_gateway.api_key := "test-api-key";
     auth_gateway.cache_ttl_seconds := 1000000000000;
     auth_gateway.timeout := 30;
     auth_gateway._cache := ∅;
     auth_gateway._current_jwt := None |}.

(** The clock of the examples starts at [datetime.min], which keeps the
    instants small; only differences between instants matter below. *)
Definition at_start : auth_gateway.World :=
  {| auth_gateway.utcnow := 0; auth_gateway.fetches := [] |}.

Definition granting_gateway : auth_gateway.Gateway :=
  {| auth_gateway.answer := λ _ _,
       Ok {| auth_gateway.gw_status_code := 200;
             auth_gateway.gw_text := "";
             auth_gateway.gw_json :=
               Some (PyDict {[ "data" :=
                 PyDict {[ "api_key" := PyStr "test-api-key-12345" ]} ]}) |};
     auth_gateway.latency := λ _, 250000%Z |}.

(** The state reached by a first [authenticate] against
    [granting_gateway]. *)
Definition session_token : string := "header.payload.signature".

Definition granted : auth_gateway.APICredentials :=
  {| auth_gateway.credentials := {[ "api_key" := PyStr "test-api-key-12345" ]};
     auth_gateway.fetched_at := 250000;
     auth_gateway.ttl_seconds := 3600 |}.

Definition logged_in : auth_gateway.Service :=
  auth_gateway.set_session new_service {[ session_token := granted ]}
    (Some session_token).

Definition after_fetch : auth_gateway.World :=
  {| auth_gateway.utcnow := 250000;
     auth_gateway.fetches :=
       [auth_gateway.gateway_request one_credential new_service session_token] |}.

(** Half an hour later, with no further request sent. *)
Definition half_an_hour_later : auth_gateway.World :=
  {| auth_gateway.utcnow := 1800000000;
     auth_gateway.fetches := auth_gateway.fetches after_fetch |}.

Definition unconfigured_gateway : auth_gateway.Gateway :=
  {| auth_gateway.answer := λ _ _,
       Ok {| auth_gateway.gw_status_code := 404;
             auth_gateway.gw_text := "Not Found";
             auth_gateway.gw_json := None |};
     auth_gateway.latency := λ _, 250000%Z |}.

(** [re.search] with [re.IGNORECASE] for patterns without
    metacharacters: a case-insensitive substring test. *)
Definition literal_search (pattern text : string) : bool :=
  contains (lower pattern) (lower text).

Definition sample_policies : tool_policies.PoliciesConfig :=
  {| tool_policies.blocked_patterns := ["delete_board"; "delete_organization"];
     tool_policies.require_confirmation := ["delete_"];
     tool_policies.audit_all := false |}.

(** Two calls that differ only in the value passed for [api_token_text],
    a key matched both by the sensitive key [token] and by the truncated
    key [text]; the first value is 120 characters long. *)
Definition shared_params : gmap string PyVal :=
  {[ "name" := PyStr "Backlog"; "limit" := PyInt 50 ]}.
Definition long_secret : string :=
  join "" (replicate 12 "0123456789").
Definition params_one : gmap string PyVal :=
  <[ "api_token_text" := PyStr long_secret ]> shared_params.
Definition params_two : gmap string PyVal :=
  <[ "api_token_text" := PyInt 7 ]> shared_params.

(** Arguments for the operation [GET /items/{id}]. *)
Definition item_args : gmap string PyVal := {[ "id" := PyInt 42 ]}.

(** Later readings of the clock: two hours after the fetch, when the
    credentials of [granted] (valid for one hour) have expired. *)
Definition two_hours_later : auth_gateway.World :=
  {| auth_gateway.utcnow := 7200000000;
     auth_gateway.fetches := auth_gateway.fetches after_fetch |}.

(** An attempt of [api_request] made right after the fetch and answered
    with 503, and one made two hours later. *)
Definition unavailable (_ : Request) : result Response :=
  Ok {| resp_status_code := 503; resp_text := "Service Unavailable";
        resp_json := None |}.

Definition failing_attempt : server_tools.Attempt :=
  {| server_tools.at_headers_check := after_fetch;
     server_tools.at_headers := after_fetch;
     server_tools.at_params_check := after_fetch;
     server_tools.at_params := after_fetch;
     server_tools.client := unavailable |}.

Definition late_attempt : server_tools.Attempt :=
  {| server_tools.at_headers_check := two_hours_later;
     server_tools.at_headers := two_hours_later;
     server_tools.at_params_check := two_hours_later;
     server_tools.at_params := two_hours_later;
     server_tools.client := ok_client |}.

End examples.

(* ===================================================================== *)
(** * Properties of the operation compiler                                *)
(* ===================================================================== *)

Section collect_parameters_facts.
Import openapi_tools.

Lemma first_with_key_app k a b :
  first_with_key k (a ++ b) =
  match first_with_key k a with
  | Some p => Some p
  | None => first_with_key k b
  end.
Proof. unfold first_with_key. rewrite filter_app. apply head_app. Qed.

Lemma first_with_key_None k l :
  first_with_key k l = None ↔ k ∉ param_key <$> l.
Proof.
  unfold first_with_key. induction l as [|q l IH]; simpl.
  - split; [intros _ H; inversion H | done].
  - rewrite filter_cons. destruct (decide (param_key q = k)) as [<-|Hne]; simpl.
    + split; [done | intros H; exfalso; apply H; left].
    + rewrite IH, not_elem_of_cons. intuition congruence.
Qed.

Lemma collect_inv_init : collect_inv (∅, []) [].
Proof.
  repeat split; simpl; try set_solver. constructor.
Qed.

Lemma collect_step_inv st done param :
  collect_inv st done → collect_inv (collect_step st param) (done ++ [param]).
Proof.
  intros (Hseen & Hnd & Hfirst). unfold collect_step.
  destruct (decide (param_key param ∈ st.1)) as [Hin|Hnin].
  - repeat split; try done; try apply Hseen.
    intros k. rewrite first_with_key_app, <- Hfirst.
    destruct (first_with_key k st.2) eqn:E; [done|].
    apply first_with_key_None in E.
    unfold first_with_key. simpl. rewrite filter_cons.
    destruct (decide (param_key param = k)) as [<-|]; [|done].
    exfalso. apply E, Hseen, Hin.
  - split; [|split]; simpl.
    + intros k. rewrite fmap_app, elem_of_union, elem_of_app, elem_of_singleton.
      simpl. rewrite list_elem_of_singleton, (Hseen k). intuition congruence.
    + rewrite fmap_app. simpl. apply NoDup_app.
      split; [done|]. split; [|apply NoDup_singleton].
      intros k Hk Hk'. apply list_elem_of_singleton in Hk' as ->.
      apply Hnin, Hseen, Hk.
    + intros k. rewrite !first_with_key_app, Hfirst. done.
Qed.

Lemma collect_loop_inv l : ∀ st done,
  collect_inv st done → collect_inv (foldl collect_step st l) (done ++ l).
Proof.
  induction l as [|param l IH]; intros st done Hinv; simpl.
  - by rewrite app_nil_r.
  - replace (done ++ param :: l) with ((done ++ [param]) ++ l)
      by (by rewrite <- app_assoc).
    apply IH, collect_step_inv, Hinv.
Qed.

Lemma collect_parameters_inv path_params op_params :
  collect_inv (foldl collect_step (foldl collect_step (∅, []) path_params) op_params)
              (path_params ++ op_params).
Proof.
  apply collect_loop_inv.
  apply (collect_loop_inv path_params (∅, []) []), collect_inv_init.
Qed.

(** C2 (as amended): the merged parameter list carries every
    (name, location) pair at most once, and the parameter kept for a pair
    is its first declaration, path-level declarations first: when a
    path-level and an operation-level parameter collide, the path-level
    one is kept. *)
Theorem collect_parameters_path_level_wins path_params op_params :
  NoDup (param_key <$> _collect_parameters path_params op_params) ∧
  ∀ k, first_with_key k (_collect_parameters path_params op_params) =
       match first_with_key k path_params with
       | Some p => Some p
       | None => first_with_key k op_params
       end.
Proof.
  destruct (collect_parameters_inv path_params op_params) as (_ & Hnd & Hfirst).
  split; [exact Hnd|].
  intros k. unfold _collect_parameters. rewrite Hfirst.
  apply first_with_key_app.
Qed.

(** C2 (counterexample): [limit] is declared as an optional query
    parameter on the path item and as a required one on the operation;
    the two collide on (name, location) and the merged list keeps the
    path-level declaration, not the operation-level one. *)
Lemma collect_parameters_operation_level_dropped :
  param_key examples.limit_on_path = param_key examples.limit_on_operation
  ∧ _collect_parameters [examples.limit_on_path] [examples.limit_on_operation]
    = [examples.limit_on_path]
  ∧ examples.limit_on_operation
    ∉ _collect_parameters [examples.limit_on_path] [examples.limit_on_operation].
Proof.
  split; [reflexivity|].
  assert (_collect_parameters [examples.limit_on_path] [examples.limit_on_operation]
          = [examples.limit_on_path]) as -> by (vm_compute; reflexivity).
  split; [reflexivity|].
  intros H. apply list_elem_of_singleton in H. discriminate.
Qed.

End collect_parameters_facts.

Section sanitize_name_facts.
Import Py openapi_tools.
Context {unicode : Unicode}.

Lemma string_length_app s1 s2 :
  String.length (s1 +:+ s2) = String.length s1 + String.length s2.
Proof. induction s1 as [|c s1 IH]; simpl; [done | by rewrite IH]. Qed.

Lemma take_length n s : String.length (take n s) ≤ n.
Proof.
  revert s. induction n as [|n IH]; intros [|c s]; simpl; try lia.
  specialize (IH s). lia.
Qed.

Lemma rstrip_length c s : String.length (rstrip c s) ≤ String.length s.
Proof.
  induction s as [|a s IH]; simpl; [done|].
  destruct (rstrip c s) as [|b r]; simpl in *.
  - destruct (decide (a = c)); simpl; lia.
  - lia.
Qed.

(** With a non-negative bound the sanitised name fits the bound. *)
Lemma sanitize_name_length name max_length :
  (0 ≤ max_length)%Z →
  (Z.of_nat (String.length (_sanitize_name name max_length)) ≤ max_length)%Z.
Proof.
  intros Hmax. unfold _sanitize_name.
  set (clean := if decide (_ = "") then "op" else _).
  destruct (Z.gtb_spec (Z.of_nat (String.length clean)) max_length) as [Hgt|Hle];
    [|done].
  unfold slice_to. destruct (Z.ltb_spec max_length 0) as [|_]; [lia|].
  pose proof (rstrip_length "_" (take (Z.to_nat max_length) clean)).
  pose proof (take_length (Z.to_nat max_length) clean). lia.
Qed.

End sanitize_name_facts.

Section register_facts.
Import Py openapi_tools.
Context {unicode : Unicode}.

Lemma for_each_inv {A S : Type} (P : S → Prop) (body : S → A → S * option Exn) :
  (∀ s x, P s → P (body s x).1) →
  ∀ xs s, P s → P (for_each body xs s).1.
Proof.
  intros Hbody xs. induction xs as [|x xs IH]; intros s Hs; simpl; [done|].
  specialize (Hbody s x Hs).
  destruct (body s x) as [s' [e|]]; simpl in *; [done | by apply IH].
Qed.

Lemma register_operation_names_inv prefix max_name_len path params st item :
  names_inv st →
  names_inv (register_operation prefix max_name_len path params st item).1.
Proof.
  intros [Hnd Hseen]. unfold register_operation.
  destruct (negb _); [done|].
  destruct item.2 as [op|]; [|done].
  set (tn := prefix +:+ "_" +:+ _).
  destruct (decide (tn ∈ seen_tool_names st)) as [|Hfresh]; [done|].
  destruct (names_where is_path _) as [rp|e]; simpl;
    [|split; [done | intros n Hn; apply elem_of_union_r, Hseen, Hn]].
  destruct (names_where is_required_query _) as [rq|e]; simpl;
    [|split; [done | intros n Hn; apply elem_of_union_r, Hseen, Hn]].
  destruct (names_where is_optional_query _) as [oq|e]; simpl;
    [|split; [done | intros n Hn; apply elem_of_union_r, Hseen, Hn]].
  split; cbn [registered seen_tool_names].
  - rewrite fmap_app. simpl. apply NoDup_app.
    split; [done|]. split; [|apply NoDup_singleton].
    intros n Hn Hn'. apply list_elem_of_singleton in Hn' as ->.
    apply Hfresh, Hseen, Hn.
  - intros n. rewrite fmap_app, elem_of_app. simpl.
    rewrite list_elem_of_singleton, elem_of_union, elem_of_singleton.
    intros [Hn| ->]; [right; apply Hseen, Hn | by left].
Qed.

Lemma register_operation_names_within prefix path params st item :
  String.length prefix ≤ 63 →
  names_within 64 st →
  names_within 64
    (register_operation prefix (64 - (Z.of_nat (String.length prefix) + 1))
       path params st item).1.
Proof.
  intros Hprefix Hst. unfold register_operation.
  destruct (negb _); [done|].
  destruct item.2 as [op|]; [|done].
  set (seed := default _ _).
  destruct (decide (_ ∈ seen_tool_names st)); [done|].
  destruct (names_where is_path _) as [rp|e]; simpl; [|done].
  destruct (names_where is_required_query _) as [rq|e]; simpl; [|done].
  destruct (names_where is_optional_query _) as [oq|e]; simpl; [|done].
  unfold names_within. cbn [registered].
  apply Forall_app. split; [done|].
  apply Forall_singleton. cbn [tool_name].
  rewrite !string_length_app. simpl.
  pose proof (sanitize_name_length seed
                (64 - (Z.of_nat (String.length prefix) + 1))). lia.
Qed.

(** X6: the names registered by one run are pairwise distinct, whatever the
    specification and the prefix (a later operation whose name is already
    in the seen set is skipped). *)
Lemma register_names_distinct paths tool_prefix config_tool_prefix :
  NoDup (tool_name <$> (register_openapi_tools paths tool_prefix config_tool_prefix).1).
Proof.
  unfold register_openapi_tools.
  set (prefix := default _ _). set (m := (64 - _)%Z). set (init := Build_RegState _ _).
  assert (names_inv (for_each (register_path prefix m) paths init).1) as [Hnd _].
  { apply for_each_inv.
    - intros s x Hs. unfold register_path. apply for_each_inv; [|done].
      intros. by apply register_operation_names_inv.
    - split; [constructor | intros n Hn; inversion Hn]. }
  by destruct (for_each _ _ _) as [st [e|]].
Qed.

(** X7: with a prefix of at most 63 characters every registered name,
    prefix included, has at most 64 characters. *)
Lemma register_names_bounded paths tool_prefix config_tool_prefix :
  String.length (default config_tool_prefix (truthy_str tool_prefix)) ≤ 63 →
  Forall (λ t, String.length (tool_name t) ≤ 64)
    (register_openapi_tools paths tool_prefix config_tool_prefix).1.
Proof.
  intros Hprefix. unfold register_openapi_tools.
  set (prefix := default _ _) in *. set (init := Build_RegState _ _).
  assert (names_within 64
    (for_each (register_path prefix (64 - (Z.of_nat (String.length prefix) + 1)))
       paths init).1) as Hall.
  { apply for_each_inv.
    - intros s x Hs. unfold register_path. apply for_each_inv; [|done].
      intros. by apply register_operation_names_within.
    - constructor. }
  by destruct (for_each _ _ _) as [st [e|]].
Qed.

End register_facts.

Section register_examples.
Import Py openapi_tools.
#[local] Existing Instance examples.symbols.

(** C4 (failing input): with the 64-character prefix [long_prefix] the
    slice bound [64 - (64 + 1)] is negative, so [clean[:max_length]] only
    drops the last character of the sanitised name, and the tools
    registered for the sample path get names of 71 and 74 characters,
    above the limit of 64. *)
Theorem register_long_prefix_exceeds_limit :
  (λ t, String.length (tool_name t)) <$>
    (register_openapi_tools examples.sample_paths (Some examples.long_prefix) "api").1
  = [71; 74].
Proof. vm_compute. reflexivity. Qed.

End register_examples.

(* ===================================================================== *)
(** * Properties of the executor                                          *)
(* ===================================================================== *)

Section execute_request_facts.
Import Py openapi_tools.
Context {unicode : Unicode}.

Lemma elem_of_missing_in (args : gmap string PyVal) required p :
  p ∈ missing_in args required ↔ p ∈ required ∧ args !! p = None.
Proof. unfold missing_in. rewrite list_elem_of_filter. tauto. Qed.

Lemma missing_in_nil (args : gmap string PyVal) required :
  missing_in args required = [] → ∀ p, p ∈ required → args !! p ≠ None.
Proof.
  intros Hnil p Hp Hnone.
  assert (p ∈ missing_in args required) as Hin by by apply elem_of_missing_in.
  rewrite Hnil in Hin. inversion Hin.
Qed.

(** C3 (as amended): when a required path or query name is absent from
    the arguments, the executor raises the validation error and the log
    of network calls is unchanged; the error lists exactly the missing
    required path names when there is one, and otherwise exactly the
    missing required query names. *)
Theorem execute_request_missing_required
    py_str client method path_template
    required_path_params required_query_params optional_query_params
    auth_params auth_headers has_request_body (args : gmap string PyVal) net p :
  p ∈ required_path_params ∨ p ∈ required_query_params →
  args !! p = None →
  _execute_request py_str client method path_template
    required_path_params required_query_params optional_query_params
    auth_params auth_headers has_request_body args net
  = (Raise match missing_in args required_path_params with
           | [] => ValueError MissingQuery (missing_in args required_query_params)
           | missing_path => ValueError MissingPath missing_path
           end, net)
  ∧ (∀ q, q ∈ missing_in args required_path_params
          ↔ q ∈ required_path_params ∧ args !! q = None)
  ∧ (∀ q, q ∈ missing_in args required_query_params
          ↔ q ∈ required_query_params ∧ args !! q = None).
Proof.
  intros Hp Hnone. split; [|split; intros q; apply elem_of_missing_in].
  unfold _execute_request.
  destruct (missing_in args required_path_params) as [|m ms] eqn:Hpath.
  - rewrite bool_decide_eq_true_2 by done. simpl.
    destruct (missing_in args required_query_params) as [|m ms] eqn:Hquery.
    + exfalso. destruct Hp as [Hp|Hp].
      * by apply (missing_in_nil _ _ Hpath p).
      * by apply (missing_in_nil _ _ Hquery p).
    + by rewrite bool_decide_eq_false_2.
  - by rewrite bool_decide_eq_false_2.
Qed.

Lemma add_required_lookup (args query : gmap string PyVal) a k :
  add_required args query a !! k =
  if decide (k = a)
  then match args !! k with Some v => Some v | None => query !! k end
  else query !! k.
Proof.
  unfold add_required. destruct (decide (k = a)) as [->|Hne].
  - destruct (args !! a); by rewrite ?lookup_insert_eq.
  - destruct (args !! a); by rewrite ?lookup_insert_ne.
Qed.

Lemma foldl_add_required_lookup (args : gmap string PyVal) l :
  ∀ (query : gmap string PyVal) k,
    foldl (add_required args) query l !! k =
    if decide (k ∈ l)
    then match args !! k with Some v => Some v | None => query !! k end
    else query !! k.
Proof.
  induction l as [|a l IH]; intros query k; simpl.
  - destruct (decide (k ∈ [])) as [H|]; [inversion H | done].
  - rewrite IH, add_required_lookup.
    destruct (decide (k = a)) as [->|Hne].
    + rewrite (decide_True (P := a ∈ a :: l)) by left.
      destruct (decide (a ∈ l)); by destruct (args !! a).
    + destruct (decide (k ∈ l)) as [Hin|Hnin].
      * by rewrite decide_True by by right.
      * rewrite decide_False; [done|]. rewrite not_elem_of_cons. done.
Qed.

Lemma add_optional_lookup (args query : gmap string PyVal) a k :
  add_optional args query a !! k =
  if decide (k = a)
  then match args !! k with
       | Some PyNone | None => query !! k
       | Some v => Some v
       end
  else query !! k.
Proof.
  unfold add_optional. destruct (decide (k = a)) as [->|Hne].
  - destruct (args !! a) as [[]|]; by rewrite ?lookup_insert_eq.
  - destruct (args !! a) as [[]|]; by rewrite ?lookup_insert_ne.
Qed.

Lemma foldl_add_optional_lookup (args : gmap string PyVal) l :
  ∀ (query : gmap string PyVal) k,
    foldl (add_optional args) query l !! k =
    if decide (k ∈ l)
    then match args !! k with
         | Some PyNone | None => query !! k
         | Some v => Some v
         end
    else query !! k.
Proof.
  induction l as [|a l IH]; intros query k; simpl.
  - destruct (decide (k ∈ [])) as [H|]; [inversion H | done].
  - rewrite IH, add_optional_lookup.
    destruct (decide (k = a)) as [->|Hne].
    + rewrite (decide_True (P := a ∈ a :: l)) by left.
      destruct (decide (a ∈ l)); by destruct (args !! a) as [[]|].
    + destruct (decide (k ∈ l)) as [Hin|Hnin].
      * by rewrite decide_True by by right.
      * rewrite decide_False; [done|]. rewrite not_elem_of_cons. done.
Qed.

(** X13: the query map handed to the client: the auth parameters first, the
    caller's query arguments for every other name. *)
Lemma build_query_lookup required_query_params optional_query_params
    (args auth : gmap string PyVal) k :
  build_query required_query_params optional_query_params args auth !! k =
  match auth !! k with
  | Some a => Some a
  | None => caller_query required_query_params optional_query_params args k
  end.
Proof.
  unfold build_query, dict_update, caller_query.
  rewrite lookup_union.
  destruct (auth !! k) as [a|]; [by destruct (_ !! k)|].
  rewrite (left_id_L None _).
  rewrite foldl_add_optional_lookup, foldl_add_required_lookup, lookup_empty.
  destruct (decide (k ∈ required_query_params));
    destruct (decide (k ∈ optional_query_params));
    by destruct (args !! k) as [[]|].
Qed.

(** X14: [_merge_auth] keeps the caller's value and adds the auth value only
    for names the caller did not supply. *)
Lemma merge_auth_lookup params (auth : gmap string PyVal) k :
  server._merge_auth params auth !! k =
  match default ∅ params !! k with
  | Some v => Some v
  | None => auth !! k
  end.
Proof.
  unfold server._merge_auth. revert k.
  apply (map_fold_weak_ind
           (λ (r : gmap string PyVal) (m : gmap string PyVal), ∀ k,
              r !! k = match default ∅ params !! k with
                       | Some v => Some v
                       | None => m !! k
                       end)).
  - intros k. rewrite lookup_empty. by destruct (_ !! k).
  - intros i x m r Hi Hr k. unfold server.setdefault.
    destruct (decide (k = i)) as [->|Hne].
    + rewrite lookup_insert_eq. specialize (Hr i). rewrite Hi in Hr.
      destruct (r !! i) eqn:Hri.
      * rewrite Hri. by destruct (default ∅ params !! i).
      * rewrite lookup_insert_eq. by destruct (default ∅ params !! i).
    + rewrite lookup_insert_ne by done. rewrite <- Hr.
      destruct (r !! i); [done | by rewrite lookup_insert_ne].
Qed.

End execute_request_facts.

Section execute_request_examples.
Import Py openapi_tools.
#[local] Existing Instance examples.symbols.

Lemma execute_request_missing_required_witness :
  ("id" ∈ ["id"] ∨ "id" ∈ ["q"]) ∧
  (∅ : gmap string PyVal) !! "id" = None ∧
  _execute_request str_scalar examples.ok_client "get" "/items/{id}"
    ["id"] ["q"] [] (Ok ∅) (Ok ∅) false ∅ []
  = (Raise (ValueError MissingPath ["id"]), []).
Proof.
  split; [left; apply list_elem_of_here|]. split; [reflexivity|].
  refine (proj1 (execute_request_missing_required str_scalar examples.ok_client
           "get" "/items/{id}" ["id"] ["q"] [] (Ok ∅) (Ok ∅) false ∅ [] "id" _ _));
    [left; apply list_elem_of_here | reflexivity].
Defined.

(** C3 (counterexample): with both the path name [id] and the query
    name [q] missing, the error lists [id] only, although [q] is a missing
    required name too. *)
Lemma execute_request_lists_path_names_only :
  (_execute_request str_scalar examples.ok_client "get" "/items/{id}"
     ["id"] ["q"] [] (Ok ∅) (Ok ∅) false ∅ []).1
  = Raise (ValueError MissingPath ["id"])
  ∧ "q" ∈ missing_in ∅ ["q"]
  ∧ "q" ∉ ["id"].
Proof.
  split; [reflexivity|]. split.
  - apply elem_of_missing_in. split; [apply list_elem_of_here | reflexivity].
  - intros H. apply list_elem_of_singleton in H. discriminate.
Qed.

(** C1 (failing input): the caller passes [key="caller-value"] for the
    required query parameter [key] while the gateway credentials project
    onto the same name.  [query.update(auth_params())] sends the gateway
    value; [_merge_auth], on the same inputs, keeps the caller's. *)
Theorem execute_request_auth_overrides_caller :
  rq_params <$>
    (_execute_request str_scalar examples.ok_client "get" "/search"
       [] ["key"] [] (Ok {[ "key" := PyStr "gateway-secret" ]}) (Ok ∅) false
       {[ "key" := PyStr "caller-value" ]} []).2
  = [ {[ "key" := PyStr "gateway-secret" ]} ]
  ∧ server._merge_auth (Some {[ "key" := PyStr "caller-value" ]})
      {[ "key" := PyStr "gateway-secret" ]}
    = {[ "key" := PyStr "caller-value" ]}.
Proof. split; vm_compute; reflexivity. Qed.

End execute_request_examples.

(* ===================================================================== *)
(** * Properties of the retry wrapper                                     *)
(* ===================================================================== *)

Section float_facts.
Import server.

(** The powers of two up to [2 ** 1023] convert exactly: mantissa [2 ** 52]
    and exponent [a - 52]. *)
Lemma float_of_pow2_table :
  forallb (λ a, match float_of_int (2 ^ Z.of_nat a) with
                | Ok (S754_finite false m e) =>
                    (m =? 4503599627370496)%positive && (e =? Z.of_nat a - 52)%Z
                | _ => false
                end) (seq 0 1024) = true.
Proof. vm_compute. reflexivity. Qed.

Lemma float_of_pow2 a :
  a < 1024 →
  float_of_int (2 ^ Z.of_nat a) = Ok (S754_finite false 4503599627370496 (Z.of_nat a - 52)).
Proof.
  intros Ha. pose proof float_of_pow2_table as Htable.
  rewrite forallb_forall in Htable.
  assert (In a (seq 0 1024)) as Hin by (apply in_seq; lia).
  specialize (Htable a Hin).
  destruct (float_of_int (2 ^ Z.of_nat a)) as [x|]; [|done].
  destruct x as [| | |s m e]; try done. destruct s; [done|].
  apply andb_true_iff in Htable as [Hm He].
  apply Pos.eqb_eq in Hm as ->. apply Z.eqb_eq in He as ->. done.
Qed.

Lemma float_of_pow2_overflow :
  float_of_int (2 ^ 1024) = Raise (OverflowError IntTooLargeForFloat).
Proof. vm_compute. reflexivity. Qed.

End float_facts.

Section with_retry_facts.
Import server.
Context {T : Type}.
Variable func : nat → result T.
Variable random : nat → float.
Variable max_attempts : Z.
Variables base_delay max_delay : float.
Variable retryable_status : list Z.

Local Abbreviation loop :=
  (retry_loop func random max_attempts base_delay max_delay retryable_status).
Local Abbreviation retried := (retried retryable_status).
Local Abbreviation back_off := (back_off random max_attempts base_delay max_delay).

(** Below attempt 1024 the delay is computed. *)
Lemma total_delay_ok a u :
  a < 1024 →
  ∃ d, total_delay base_delay max_delay (Z.of_nat a) u = Ok d.
Proof.
  intros Ha. unfold total_delay, backoff. rewrite float_of_pow2 by done.
  by eexists.
Qed.

Lemma back_off_ok a w :
  a < 1024 →
  ∃ d, total_delay base_delay max_delay (Z.of_nat a) (random (draws w)) = Ok d ∧
       back_off (Z.of_nat a) w =
       Ok {| calls := calls w; draws := S (draws w);
             sleeps := if (Z.of_nat a <? max_attempts - 1)%Z
                       then sleeps w ++ [d] else sleeps w |}.
Proof.
  intros Ha. destruct (total_delay_ok a (random (draws w)) Ha) as [d Hd].
  exists d. split; [done|]. unfold server.back_off. by rewrite Hd.
Qed.

(** At attempt 1024 the conversion of [2 ** 1024] overflows. *)
Lemma back_off_overflow w :
  back_off 1024 w = Raise (OverflowError IntTooLargeForFloat).
Proof.
  unfold server.back_off, total_delay, backoff.
  by rewrite float_of_pow2_overflow.
Qed.

Lemma loop_returns n attempt last w v :
  func (calls w) = Ok v →
  loop (S n) attempt last w = (Ok v, called w).
Proof. intros Hf. simpl. by rewrite Hf. Qed.

Lemma loop_raises n attempt last w exc :
  func (calls w) = Raise exc → retried exc = false →
  loop (S n) attempt last w = (Raise exc, called w).
Proof.
  intros Hf Hr. simpl. rewrite Hf.
  destruct exc; try done; simpl in Hr.
  by rewrite Hr.
Qed.

Lemma loop_retries n attempt last w exc :
  func (calls w) = Raise exc → retried exc = true →
  loop (S n) attempt last w =
  match back_off attempt (called w) with
  | Ok w2 => loop n (attempt + 1)%Z (Some exc) w2
  | Raise overflow => (Raise overflow, called w)
  end.
Proof.
  intros Hf Hr. simpl. rewrite Hf.
  destruct exc; try done; simpl in Hr.
  by rewrite Hr.
Qed.

(** [k] retried failures in a row, all below attempt 1024, consume [k]
    iterations and [k] calls. *)
Lemma loop_after_failures k : ∀ n a last w,
  a + k ≤ 1024 →
  (∀ i, i < k → ∃ exc, func (calls w + i) = Raise exc ∧ retried exc = true) →
  ∃ w', loop (k + n) (Z.of_nat a) last w
        = loop n (Z.of_nat (a + k)) (last_failure func (calls w) k last) w'
        ∧ calls w' = calls w + k.
Proof.
  induction k as [|k IH]; intros n a last w Hbound Hfail.
  - exists w. simpl. by rewrite !Nat.add_0_r.
  - destruct (Hfail 0) as (exc & Hexc & Hretried); [lia|].
    rewrite Nat.add_0_r in Hexc.
    replace (S k + n) with (S (k + n)) by lia.
    rewrite (loop_retries _ _ _ _ exc) by done.
    destruct (back_off_ok a (called w)) as (d & _ & ->); [lia|].
    set (w2 := Build_RetryWorld _ _ _).
    assert (calls w2 = S (calls w)) as Hw2 by done.
    destruct (IH n (S a) (Some exc) w2) as (w' & Heq & Hcalls); [lia| |].
    { intros i Hi. destruct (Hfail (S i)) as (e & He & Hr); [lia|].
      exists e. split; [|done]. rewrite <- He, Hw2. f_equal. lia. }
    exists w'. replace (Z.of_nat a + 1)%Z with (Z.of_nat (S a)) by lia.
    rewrite Heq, Hcalls, Hw2. split; [|lia].
    replace (S a + k) with (a + S k) by lia. f_equal.
    destruct k as [|k']; simpl.
    + by rewrite Nat.add_0_r, Hexc.
    + destruct (Hfail (S k')) as (e & He & _); [lia|].
      replace (S (calls w + k')) with (calls w + S k') by lia.
      by rewrite He.
Qed.

(** The loop goes on only after a retryable status or a connect or
    timeout failure.  With at most 1024 attempts, after [k] such failures
    in a row: a result at call [k] is returned and any other exception at
    call [k] is raised at once, in both cases after exactly [k + 1] calls;
    and when all [max_attempts] calls fail in this way, exactly
    [max_attempts] calls are made and the exception of the last call is
    raised. *)
Lemma with_retry_attempts k :
  (max_attempts ≤ 1024)%Z →
  (∀ i, i < k → ∃ exc, func i = Raise exc ∧ retried exc = true) →
  k ≤ Z.to_nat max_attempts →
  let run := with_retry func random max_attempts base_delay max_delay
               retryable_status fresh in
  (∀ v, k < Z.to_nat max_attempts → func k = Ok v →
        run.1 = Ok v ∧ calls run.2 = S k) ∧
  (∀ exc, k < Z.to_nat max_attempts → func k = Raise exc → retried exc = false →
        run.1 = Raise exc ∧ calls run.2 = S k) ∧
  (k = Z.to_nat max_attempts → 0 < k →
        calls run.2 = k ∧ ∃ exc, func (k - 1) = Raise exc ∧ run.1 = Raise exc).
Proof.
  intros Hmax Hfail Hk run. subst run. unfold with_retry.
  destruct (loop_after_failures k (Z.to_nat max_attempts - k) 0 None fresh)
    as (w' & Heq & Hcalls); [lia|done|].
  replace (k + (Z.to_nat max_attempts - k)) with (Z.to_nat max_attempts) in Heq by lia.
  simpl in Hcalls. change (Z.of_nat 0) with 0%Z in Heq. rewrite Heq. clear Heq.
  split; [|split].
  - intros v Hlt Hv.
    destruct (Z.to_nat max_attempts - k) as [|n] eqn:Hn; [lia|].
    rewrite (loop_returns _ _ _ _ v) by by rewrite Hcalls.
    simpl. split; [done | lia].
  - intros exc Hlt Hexc Hstop.
    destruct (Z.to_nat max_attempts - k) as [|n] eqn:Hn; [lia|].
    rewrite (loop_raises _ _ _ _ exc) by by rewrite ?Hcalls.
    simpl. split; [done | lia].
  - intros Hall Hpos.
    replace (Z.to_nat max_attempts - k) with 0 by lia.
    destruct k as [|k']; [lia|].
    destruct (Hfail k') as (exc & Hexc & _); [lia|].
    simpl. rewrite Hexc. simpl. split; [done|].
    exists exc. by rewrite Nat.sub_0_r.
Qed.

(** C5 (failing input): with more than 1024 attempts allowed, when the
    first 1025 calls all fail with a retryable status or a connect or
    timeout failure, the delay computed after the 1025th needs
    [float(2 ** 1024)]: the run ends there with that [OverflowError], not
    with the last failure of [func], after 1025 calls, whatever
    [max_attempts] allows beyond that. *)
Theorem with_retry_overflows :
  (1025 ≤ max_attempts)%Z →
  (∀ i, i < 1025 → ∃ exc, func i = Raise exc ∧ retried exc = true) →
  let run := with_retry func random max_attempts base_delay max_delay
               retryable_status fresh in
  run.1 = Raise (OverflowError IntTooLargeForFloat) ∧ calls run.2 = 1025.
Proof.
  intros Hmax Hfail run. subst run. unfold with_retry.
  destruct (loop_after_failures 1024 (Z.to_nat max_attempts - 1024) 0 None fresh)
    as (w' & Heq & Hcalls); [lia| |].
  { intros i Hi. apply (Hfail i). lia. }
  replace (1024 + (Z.to_nat max_attempts - 1024)) with (Z.to_nat max_attempts)
    in Heq by lia.
  change (Z.of_nat 0) with 0%Z in Heq. rewrite Heq. clear Heq.
  simpl in Hcalls.
  destruct (Z.to_nat max_attempts - 1024) as [|n] eqn:Hn; [lia|].
  destruct (Hfail 1024) as (exc & Hexc & Hretried); [lia|].
  rewrite (loop_retries _ _ _ _ exc) by by rewrite ?Hcalls.
  change (Z.of_nat (0 + 1024)) with 1024%Z.
  rewrite back_off_overflow. simpl. split; [done | lia].
Qed.

End with_retry_facts.

Section backoff_facts.
Import server.
Context {T : Type}.
Variable func : nat → result T.
Variable random : nat → float.
Variable max_attempts : Z.
Variables base_delay max_delay : float.
Variable retryable_status : list Z.

Local Abbreviation loop :=
  (retry_loop func random max_attempts base_delay max_delay retryable_status).
Local Abbreviation retried := (retried retryable_status).
Local Abbreviation back_off := (back_off random max_attempts base_delay max_delay).
Local Abbreviation at_head := (at_loop_head random max_attempts base_delay max_delay).
Local Abbreviation at_end := (at_exit random max_attempts base_delay max_delay).

Lemma fresh_at_loop_head : at_head (Z.to_nat max_attempts) 0%Z fresh.
Proof.
  unfold at_loop_head, delays_ok; simpl.
  repeat split; try lia; inversion H.
Qed.

Lemma called_at_exit n attempt w :
  at_head (S n) attempt w → at_end (called w).
Proof.
  intros (_ & _ & _ & Hrem & Hlen & Hok).
  unfold at_exit, called; cbn [calls draws sleeps].
  split; [lia|]. split; [lia | exact Hok].
Qed.

Lemma back_off_at_loop_head n attempt w w2 :
  at_head (S n) attempt w →
  back_off attempt (called w) = Ok w2 →
  at_head n (attempt + 1)%Z w2.
Proof.
  intros (-> & Hbound & Hdraws & Hrem & Hlen & Hok) Hback.
  assert (calls w < 1024) as Hlt.
  { destruct (decide (calls w = 1024)) as [Heq|]; [|lia].
    rewrite Heq in Hback. change (Z.of_nat 1024) with 1024%Z in Hback.
    by rewrite back_off_overflow in Hback. }
  destruct (back_off_ok random max_attempts base_delay max_delay (calls w) (called w) Hlt)
    as (d & Hd & Hw2).
  rewrite Hw2 in Hback. injection Hback as <-.
  unfold at_loop_head, delays_ok, called in *; cbn [calls draws sleeps] in *.
  split; [lia|]. split; [lia|]. split; [lia|]. split; [lia|].
  destruct (Z.ltb_spec (Z.of_nat (calls w)) (max_attempts - 1)) as [Hnotlast|Hlast].
  - split; [rewrite length_app; cbn [length]; lia|].
    intros i x. destruct (decide (i < length (sleeps w))) as [Hi|Hi].
    + rewrite lookup_app_l by done. apply Hok.
    + rewrite lookup_app_r by lia.
      destruct (i - length (sleeps w)) as [|j] eqn:Hj; simpl; [|done].
      intros [= <-]. replace i with (calls w) by lia.
      rewrite Hdraws in Hd. by repeat split.
  - split; [lia | exact Hok].
Qed.

Lemma loop_exit n : ∀ attempt last w,
  at_head n attempt w → at_end (loop n attempt last w).2.
Proof.
  induction n as [|n IH]; intros attempt last w Hhead.
  - destruct Hhead as (_ & _ & _ & Hrem & Hlen & Hok).
    simpl. destruct last; simpl; (split; [lia|]); (split; [lia | exact Hok]).
  - destruct (func (calls w)) as [v|exc] eqn:Hf.
    + rewrite (loop_returns _ _ _ _ _ _ _ _ _ _ v) by done.
      by eapply called_at_exit.
    + destruct (retried exc) eqn:Hr.
      * rewrite (loop_retries _ _ _ _ _ _ _ _ _ _ exc) by done.
        destruct (back_off attempt (called w)) as [w2|overflow] eqn:Hback.
        -- apply IH. by eapply back_off_at_loop_head.
        -- by eapply called_at_exit.
      * rewrite (loop_raises _ _ _ _ _ _ _ _ _ _ exc) by done.
        by eapply called_at_exit.
Qed.


End backoff_facts.

Section retry_examples.
Import server examples.

(** The literal [0.1] is the float nearest to one tenth. *)
Example tenth_is_nearest :
  SFdiv prec emax one (binary_normalize prec emax 10 0 false) = tenth.
Proof. vm_compute. reflexivity. Qed.

Lemma with_retry_overflows_witness :
  (1025 ≤ 1025)%Z ∧
  always_503 1024 = Raise (HTTPStatusError 503 "Service Unavailable") ∧
  (with_retry always_503 half 1025 RETRY_BASE_DELAY RETRY_MAX_DELAY
     RETRYABLE_STATUS_CODES fresh).1 = Raise (OverflowError IntTooLargeForFloat) ∧
  calls (with_retry always_503 half 1025 RETRY_BASE_DELAY RETRY_MAX_DELAY
           RETRYABLE_STATUS_CODES fresh).2 = 1025.
Proof.
  assert (1025 ≤ 1025)%Z as Hmax by lia.
  split; [exact Hmax|]. split; [reflexivity|].
  refine (with_retry_overflows always_503 half 1025 RETRY_BASE_DELAY RETRY_MAX_DELAY
            RETRYABLE_STATUS_CODES Hmax _).
  intros i _. eexists. split; reflexivity.
Defined.


(** The run against an upstream that always answers 503, with the default
    settings: three calls, two sleeps of 1.05 s and 2.1 s, and the 503 of
    the third call raised. *)
Example three_503_run :
  with_retry always_503 half RETRY_MAX_ATTEMPTS RETRY_BASE_DELAY
    RETRY_MAX_DELAY RETRYABLE_STATUS_CODES fresh
  = (Raise (HTTPStatusError 503 "Service Unavailable"),
     {| calls := 3; draws := 3;
        sleeps := [S754_finite false 4728779608739021 (-52);
                   S754_finite false 4728779608739021 (-51)] |}).
Proof. vm_compute. reflexivity. Qed.

End retry_examples.

(* ===================================================================== *)
(** * Properties of the credential cache                                  *)
(* ===================================================================== *)

Section auth_gateway_facts.
Import Py auth_gateway.

Lemma fetch_sends_one_request gw config s jwt w :
  fetches (_fetch_from_gateway gw config s jwt w).2 =
  fetches w ++ [gateway_request config s jwt].
Proof.
  unfold _fetch_from_gateway.
  destruct (answer gw _ _) as [response|[]]; reflexivity.
Qed.

(** A call that finds no usable cache entry goes to the gateway. *)
Lemma authenticate_miss gw config jwt s w :
  (∀ c, _cache s !! jwt = Some c → is_expired (utcnow w) c = Ok true) →
  authenticate gw config jwt s w =
  match _fetch_from_gateway gw config s jwt w with
  | (Ok creds, w') =>
      let stored := set_session s (<[ jwt := creds ]> (_cache s)) (Some jwt) in
      match expires_at creds with
      | Ok _ => (Ok creds, stored, w')
      | Raise e => (Raise e, stored, w')
      end
  | (Raise e, w') => (Raise e, s, w')
  end.
Proof.
  intros Hmiss. unfold authenticate.
  destruct (_cache s !! jwt) as [cached|] eqn:Hc; [|done].
  by rewrite (Hmiss cached).
Qed.

(** When the fetch fails, so does the call, and the service is as it was. *)
Lemma authenticate_fetch_failure gw config jwt s w exc :
  (∀ c, _cache s !! jwt = Some c → is_expired (utcnow w) c = Ok true) →
  (_fetch_from_gateway gw config s jwt w).1 = Raise exc →
  (authenticate gw config jwt s w).1 = (Raise exc, s).
Proof.
  intros Hmiss Hfetch. rewrite authenticate_miss by done.
  destruct (_fetch_from_gateway gw config s jwt w) as [[creds|e] w']; [done|].
  simpl in Hfetch. by injection Hfetch as ->.
Qed.

(** C7: when the first call for a token finds no usable cache entry and
    succeeds, and the entry it stored has not expired at the instant [t2]
    of the second call, the two calls together send exactly one request to
    the gateway: the second call returns the stored credentials and leaves
    the log of gateway requests, and the service, as they are. *)
Theorem authenticate_twice_one_fetch gw config jwt s0 w0 c1 s1 w1 t2 :
  (∀ c, _cache s0 !! jwt = Some c → is_expired (utcnow w0) c = Ok true) →
  authenticate gw config jwt s0 w0 = (Ok c1, s1, w1) →
  is_expired t2 c1 = Ok false →
  let w2 := {| utcnow := t2; fetches := fetches w1 |} in
  fetches w1 = fetches w0 ++ [gateway_request config s0 jwt] ∧
  _cache s1 !! jwt = Some c1 ∧
  authenticate gw config jwt s1 w2 = (Ok c1, s1, w2).
Proof.
  intros Hmiss Hfirst Hfresh w2.
  rewrite authenticate_miss in Hfirst by done.
  pose proof (fetch_sends_one_request gw config s0 jwt w0) as Hlog.
  destruct (_fetch_from_gateway gw config s0 jwt w0) as [[creds|e] w']; [|done].
  simpl in Hfirst. destruct (expires_at creds) as [expiry|e]; [|done].
  injection Hfirst as -> <- <-. simpl in Hlog.
  split; [done|]. split; [apply lookup_insert_eq|].
  unfold authenticate. cbn [_cache set_session].
  rewrite lookup_insert_eq. cbn [utcnow w2]. by rewrite Hfresh.
Qed.

(** C8: when the call goes to the gateway and the fetch fails, for any
    reason, [authenticate] raises the exception of the fetch and the
    service, cache and active token included, is as it was; for an answer
    with status 404 that exception is the [AuthGatewayError] with status
    code 404 and the message "no credentials configured". *)
Theorem authenticate_404_not_configured gw config jwt s w :
  (∀ c, _cache s !! jwt = Some c → is_expired (utcnow w) c = Ok true) →
  (∀ exc, (_fetch_from_gateway gw config s jwt w).1 = Raise exc →
          (authenticate gw config jwt s w).1 = (Raise exc, s))
  ∧ (∀ response,
       answer gw (length (fetches w)) (gateway_request config s jwt) = Ok response →
       gw_status_code response = 404%Z →
       ∃ e, (authenticate gw config jwt s w).1 = (Raise (GatewayError e), s)
            ∧ status_code e = Some 404%Z
            ∧ message e =
                "No tienes credenciales de " +:+ display_name config
                +:+ " configuradas en Auth Gateway. "
                +:+ "Por favor, añade tus credenciales en el panel de Auth Gateway."
            ∧ _cache s !! jwt = _cache (authenticate gw config jwt s w).1.2 !! jwt
            ∧ _current_jwt (authenticate gw config jwt s w).1.2 = _current_jwt s).
Proof.
  intros Hmiss. split.
  - intros exc. by apply authenticate_fetch_failure.
  - intros response Hanswer Hstatus.
    assert ((_fetch_from_gateway gw config s jwt w).1
            = Raise (not_configured (display_name config))) as Hfetch.
    { unfold _fetch_from_gateway. rewrite Hanswer.
      unfold read_response. by rewrite Hstatus. }
    apply (authenticate_fetch_failure _ _ _ _ _ _ Hmiss) in Hfetch.
    eexists. rewrite Hfetch. by repeat split.
Qed.

End auth_gateway_facts.

Section auth_gateway_examples.
Import Py auth_gateway.

Lemma authenticate_twice_one_fetch_witness :
  authenticate examples.granting_gateway examples.one_credential
    examples.session_token examples.new_service examples.at_start
  = (Ok examples.granted, examples.logged_in, examples.after_fetch) ∧
  is_expired (utcnow examples.half_an_hour_later) examples.granted = Ok false ∧
  length (fetches examples.half_an_hour_later) = 1 ∧
  authenticate examples.granting_gateway examples.one_credential
    examples.session_token examples.logged_in examples.half_an_hour_later
  = (Ok examples.granted, examples.logged_in, examples.half_an_hour_later).
Proof.
  assert (authenticate examples.granting_gateway examples.one_credential
            examples.session_token examples.new_service examples.at_start
          = (Ok examples.granted, examples.logged_in, examples.after_fetch))
    as Hfirst by (vm_compute; reflexivity).
  assert (is_expired (utcnow examples.half_an_hour_later) examples.granted = Ok false)
    as Hfresh by reflexivity.
  split; [exact Hfirst|]. split; [exact Hfresh|]. split; [reflexivity|].
  refine (proj2 (proj2 (authenticate_twice_one_fetch examples.granting_gateway
            examples.one_credential examples.session_token
            examples.new_service examples.at_start examples.granted
            examples.logged_in examples.after_fetch
            (utcnow examples.half_an_hour_later) _ Hfirst Hfresh))).
  by intros c Hc.
Defined.

Lemma authenticate_404_not_configured_witness :
  ∃ e,
    (authenticate examples.unconfigured_gateway examples.one_credential
       examples.session_token examples.new_service examples.at_start).1
    = (Raise (GatewayError e), examples.new_service)
    ∧ status_code e = Some 404%Z.
Proof.
  assert (∀ c, _cache examples.new_service !! examples.session_token = Some c →
               is_expired (utcnow examples.at_start) c = Ok true) as Hmiss
    by (by intros c Hc).
  edestruct (proj2 (authenticate_404_not_configured examples.unconfigured_gateway
               examples.one_credential examples.session_token
               examples.new_service examples.at_start Hmiss))
    as (e & He & Hstatus & _); [reflexivity | reflexivity |].
  exists e. by split.
Defined.

End auth_gateway_examples.

(* ===================================================================== *)
(** * Properties of the policy engine                                     *)
(* ===================================================================== *)

Section tool_policies_facts.
Import Py tool_policies.
Context {unicode : Unicode}.

(** Whatever the override flag, a name matched by a blocked pattern is
    classified (CRITICAL, BLOCK), while [is_tool_blocked] reports it
    blocked only with the flag unset. *)
Lemma blocked_whatever_the_flag (re_search : string → string → bool)
    (config : PoliciesConfig) (tool_name : string) (flag : bool) :
  _matches_pattern re_search tool_name (blocked_patterns config) = true →
  get_tool_policy re_search config tool_name = (CRITICAL, BLOCK)
  ∧ is_tool_blocked re_search flag config tool_name = negb flag
  ∧ get_blocked_tools_list flag config = (if flag then [] else blocked_patterns config).
Proof.
  intros Hmatch. unfold get_tool_policy, is_tool_blocked, get_blocked_tools_list.
  rewrite Hmatch. by destruct flag.
Qed.

Lemma filter_lookup (params : gmap string PyVal) key :
  _filter_sensitive_params params !! key = filter_entry key <$> params !! key.
Proof.
  unfold _filter_sensitive_params. rewrite map_lookup_imap.
  by destruct (params !! key).
Qed.

Lemma filter_entry_sensitive key value :
  any_in SENSITIVE_KEYS (lower key) = true → filter_entry key value = REDACTED.
Proof. intros H. unfold filter_entry. by rewrite H. Qed.

(** C10: every key whose lower-cased form contains one of the sensitive
    substrings is mapped to the marker "[REDACTED]" whatever its value,
    also when the key matches a truncation rule; hence two parameter maps
    with the same keys that agree on the values of all other keys have
    the same filtered output. *)
Theorem filter_hides_sensitive_values (params1 params2 : gmap string PyVal) :
  dom params1 = dom params2 →
  (∀ key, any_in SENSITIVE_KEYS (lower key) = false →
          params1 !! key = params2 !! key) →
  _filter_sensitive_params params1 = _filter_sensitive_params params2
  ∧ (∀ key, key ∈ dom params1 → any_in SENSITIVE_KEYS (lower key) = true →
            _filter_sensitive_params params1 !! key = Some (PyStr "[REDACTED]"))
  ∧ (∀ key value, any_in SENSITIVE_KEYS (lower key) = true →
                  filter_entry key value = PyStr "[REDACTED]").
Proof.
  intros Hdom Hsame. split; [|split].
  - apply map_eq. intros key. rewrite !filter_lookup.
    destruct (any_in SENSITIVE_KEYS (lower key)) eqn:Hkey.
    + assert (is_Some (params1 !! key) ↔ is_Some (params2 !! key)) as Hboth.
      { by rewrite <- !elem_of_dom, Hdom. }
      destruct (params1 !! key) as [v1|], (params2 !! key) as [v2|]; simpl.
      * by rewrite !filter_entry_sensitive.
      * destruct Hboth as [[? Habs] _]; [by eexists | discriminate].
      * destruct Hboth as [_ [? Habs]]; [by eexists | discriminate].
      * done.
    + by rewrite (Hsame key Hkey).
  - intros key Hin Hkey. rewrite filter_lookup.
    apply elem_of_dom in Hin as [value ->]. simpl.
    by rewrite filter_entry_sensitive.
  - intros key value. apply filter_entry_sensitive.
Qed.

End tool_policies_facts.

Section tool_policies_examples.
Import Py tool_policies.
#[local] Existing Instance examples.symbols.

(** C9 (failing input): with [ENABLE_CRITICAL_TOOLS] set, the name
    [trello_delete_board], matched by a blocked pattern, is reported as not
    blocked by [is_tool_blocked] and the list of blocked patterns is empty,
    but [get_tool_policy], which does not read the flag, still classifies
    it (CRITICAL, BLOCK); without the blocked patterns the same name is
    classified (HIGH, REQUIRE_CONFIRMATION) by the next rule. *)
Theorem blocked_policy_ignores_override :
  _matches_pattern examples.literal_search "trello_delete_board"
    (blocked_patterns examples.sample_policies) = true
  ∧ is_tool_blocked examples.literal_search true examples.sample_policies
      "trello_delete_board" = false
  ∧ get_blocked_tools_list true examples.sample_policies = []
  ∧ get_tool_policy examples.literal_search examples.sample_policies
      "trello_delete_board" = (CRITICAL, BLOCK)
  ∧ get_tool_policy examples.literal_search
      {| blocked_patterns := [];
         require_confirmation := require_confirmation examples.sample_policies;
         audit_all := audit_all examples.sample_policies |}
      "trello_delete_board" = (HIGH, REQUIRE_CONFIRMATION).
Proof. repeat split; vm_compute; reflexivity. Qed.

Lemma filter_hides_sensitive_values_witness :
  dom examples.params_one = dom examples.params_two ∧
  any_in SENSITIVE_KEYS (lower "api_token_text") = true ∧
  any_in TRUNCATE_KEYS (lower "api_token_text") = true ∧
  long_str (PyStr examples.long_secret) = Some examples.long_secret ∧
  _filter_sensitive_params examples.params_one
  = _filter_sensitive_params examples.params_two.
Proof.
  assert (dom examples.params_one = dom examples.params_two) as Hdom.
  { unfold examples.params_one, examples.params_two. by rewrite !dom_insert_L. }
  split; [exact Hdom|]. do 3 (split; [reflexivity|]).
  refine (proj1 (filter_hides_sensitive_values examples.params_one
                   examples.params_two Hdom _)).
  intros key Hkey. unfold examples.params_one, examples.params_two.
  destruct (decide (key = "api_token_text")) as [->|Hne].
  - discriminate Hkey.
  - by rewrite !lookup_insert_ne.
Defined.

(** The record logged for either call shows the marker, not the value. *)
Example filtered_params_one :
  _filter_sensitive_params examples.params_one
  = {[ "api_token_text" := PyStr "[REDACTED]";
       "name" := PyStr "Backlog"; "limit" := PyInt 50 ]}.
Proof. vm_compute. reflexivity. Qed.

End tool_policies_examples.

(* ===================================================================== *)
(** * Further properties of the compiler and the executor                 *)
(* ===================================================================== *)

Section sanitize_name_more.
Import Py openapi_tools.
Context {unicode : Unicode}.

(** An ASCII character is replaced by a single character of a name. *)
Lemma sanitize_char_ascii c :
  is_ascii c = true →
  ∃ c', sanitize_char c = String c' "" ∧ name_char c' = true.
Proof.
  destruct c as [[] [] [] [] [] [] [] []]; intros H; try discriminate H;
    eexists; split; reflexivity.
Qed.

(** A character of a name is ASCII and is left as it is. *)
Lemma sanitize_char_fixed c :
  name_char c = true → is_ascii c = true ∧ sanitize_char c = String c "".
Proof.
  destruct c as [[] [] [] [] [] [] [] []]; intros H; try discriminate H;
    split; reflexivity.
Qed.

Lemma all_chars_app p s1 s2 :
  all_chars p (s1 +:+ s2) = all_chars p s1 && all_chars p s2.
Proof. induction s1 as [|c s1 IH]; simpl; [done|]. by rewrite IH, andb_assoc. Qed.

Lemma split_nonempty sep s : split sep s ≠ [].
Proof.
  destruct s as [|c s]; simpl; [done|].
  destruct (decide (c = sep)); [done|]. by destruct (split sep s).
Qed.

Lemma all_chars_split p sep s :
  all_chars p s = true → Forall (λ piece, all_chars p piece = true) (split sep s).
Proof.
  induction s as [|c s IH]; simpl; intros H.
  - by constructor.
  - apply andb_true_iff in H as [Hc Hs]. specialize (IH Hs).
    destruct (decide (c = sep)); [by constructor|].
    destruct (split sep s) as [|h t]; [by repeat constructor; simpl; rewrite Hc|].
    inversion IH; subst. constructor; [simpl; by rewrite Hc | done].
Qed.

Lemma all_chars_join p sep pieces :
  all_chars p sep = true →
  Forall (λ piece, all_chars p piece = true) pieces →
  all_chars p (join sep pieces) = true.
Proof.
  intros Hsep. induction 1 as [|h t Hh Ht IH]; simpl; [done|].
  destruct t as [|h' t']; [done|].
  by rewrite !all_chars_app, Hh, Hsep, IH.
Qed.

Lemma all_chars_take p n s : all_chars p s = true → all_chars p (take n s) = true.
Proof.
  revert s. induction n as [|n IH]; intros [|c s]; simpl; try done.
  intros [Hc Hs]%andb_true_iff. by rewrite Hc, IH.
Qed.

Lemma all_chars_rstrip p c s : all_chars p s = true → all_chars p (rstrip c s) = true.
Proof.
  induction s as [|a s IH]; simpl; [done|].
  intros [Ha Hs]%andb_true_iff. specialize (IH Hs).
  destruct (rstrip c s) as [|b r].
  - destruct (decide (a = c)); simpl; [done | by rewrite Ha].
  - simpl in *. by rewrite Ha, IH.
Qed.

Lemma Forall_filter_keep {A} (P Q : A → Prop) `{∀ x, Decision (Q x)} (l : list A) :
  Forall P l → Forall P (filter Q l).
Proof.
  rewrite !Forall_forall. intros HP x Hx. apply list_elem_of_filter in Hx as [_ Hx]. auto.
Qed.

Lemma join_chars_ascii name :
  all_chars is_ascii name = true →
  all_chars name_char (join_chars sanitize_char name) = true.
Proof.
  induction name as [|c name IH]; [done|].
  intros [Hc Hname]%andb_true_iff.
  destruct (sanitize_char_ascii c Hc) as (c' & Heq & Hc').
  cbn [join_chars]. rewrite Heq, all_chars_app. simpl.
  by rewrite Hc', IH.
Qed.

Lemma join_chars_fixed s :
  all_chars name_char s = true → join_chars sanitize_char s = s.
Proof.
  induction s as [|c s IH]; [done|].
  intros [Hc Hs]%andb_true_iff.
  destruct (sanitize_char_fixed c Hc) as [_ Heq].
  cbn [join_chars]. by rewrite Heq, IH.
Qed.

Lemma name_chars_ascii s :
  all_chars name_char s = true → all_chars is_ascii s = true.
Proof.
  induction s as [|c s IH]; [done|].
  intros [Hc Hs]%andb_true_iff. simpl.
  by rewrite (proj1 (sanitize_char_fixed c Hc)), IH.
Qed.

Lemma sanitize_name_chars_ok name max_length :
  all_chars is_ascii name = true →
  all_chars name_char (_sanitize_name name max_length) = true.
Proof.
  intros Hascii. unfold _sanitize_name.
  set (pieces := filter _ _).
  assert (all_chars name_char (join "_" pieces) = true) as Hjoin.
  { apply all_chars_join; [done|]. apply Forall_filter_keep, all_chars_split.
    by apply join_chars_ascii. }
  set (clean := if decide (_ = "") then "op" else _).
  assert (all_chars name_char clean = true) as Hclean.
  { subst clean. by destruct (decide _). }
  destruct (_ >? _)%Z; [|done].
  apply all_chars_rstrip. unfold slice_to.
  destruct (_ <? _)%Z; by apply all_chars_take.
Qed.

Lemma ascii_lower_fixed c : name_char c = true → ascii_lower c = c.
Proof.
  destruct c as [[] [] [] [] [] [] [] []]; intros H; try reflexivity; discriminate H.
Qed.

Lemma map_chars_fixed f p s :
  (∀ c, p c = true → f c = c) → all_chars p s = true → map_chars f s = s.
Proof.
  intros Hf. induction s as [|c s IH]; simpl; [done|].
  intros [Hc Hs]%andb_true_iff. by rewrite (Hf c Hc), IH.
Qed.

(** X2: whatever the bound, the sanitised form of a name written in ASCII
    consists of lower-case ASCII letters, digits and underscores only;
    lower-casing it again changes nothing. *)
Theorem sanitize_name_charset name max_length :
  all_chars is_ascii name = true →
  all_chars name_char (_sanitize_name name max_length) = true
  ∧ lower (_sanitize_name name max_length) = _sanitize_name name max_length.
Proof.
  intros Hascii.
  pose proof (sanitize_name_chars_ok name max_length Hascii) as Hchars.
  split; [exact Hchars|].
  unfold lower. rewrite (name_chars_ascii _ Hchars).
  exact (map_chars_fixed _ _ _ ascii_lower_fixed Hchars).
Qed.


Lemma string_app_empty_r s : s +:+ "" = s.
Proof.
  induction s as [|c s IH]; [done|].
  change (String c (s +:+ "") = String c s). by rewrite IH.
Qed.

Lemma split_pieces_no_sep sep s :
  Forall (λ piece, all_chars (λ c, negb (bool_decide (c = sep))) piece = true) (split sep s).
Proof.
  induction s as [|c s IH]; simpl; [by constructor|].
  destruct (decide (c = sep)) as [|Hne]; [by constructor|].
  destruct (split sep s) as [|h t]; simpl.
  - repeat constructor. simpl. by rewrite bool_decide_eq_false_2.
  - inversion IH; subst. constructor; [|done].
    simpl. by rewrite bool_decide_eq_false_2.
Qed.

Lemma compact_go_piece after_sep piece rest :
  all_chars not_underscore piece = true →
  piece ≠ "" ∨ after_sep = false →
  compact_go after_sep (piece +:+ rest) = compact_go false rest.
Proof.
  revert after_sep. induction piece as [|c piece IH]; intros after_sep Hp Hne.
  - destruct Hne as [ Hne | -> ]; done.
  - simpl in *. apply andb_true_iff in Hp as [Hc Hp].
    unfold not_underscore in Hc. apply negb_true_iff, bool_decide_eq_false in Hc.
    rewrite decide_False by done. apply IH; [done | by right].
Qed.

Lemma compact_join pieces :
  pieces ≠ [] →
  Forall (λ piece, all_chars not_underscore piece = true ∧ piece ≠ "") pieces →
  compact_go true (join "_" pieces) = true.
Proof.
  intros Hne Hall. induction Hall as [|h t [Hh Hh'] Ht IH]; [done|].
  simpl. destruct t as [|h' t'].
  - rewrite <- (string_app_empty_r h). rewrite compact_go_piece by auto. done.
  - rewrite compact_go_piece by auto.
    change ("_" +:+ join "_" (h' :: t')) with (String "_" (join "_" (h' :: t'))).
    cbn [compact_go]. rewrite decide_True by done. by apply IH.
Qed.

Lemma compact_separated after_sep s :
  compact_go after_sep s = true → separated_go after_sep s = true.
Proof.
  revert after_sep. induction s as [|c s IH]; intros after_sep; simpl; [done|].
  destruct (decide (c = "_"%char)); [|apply IH].
  intros [-> H]%andb_true_iff. by rewrite IH.
Qed.

Lemma separated_take after_sep n s :
  separated_go after_sep s = true → separated_go after_sep (take n s) = true.
Proof.
  revert after_sep s. induction n as [|n IH]; intros after_sep [|c s]; simpl; try done.
  destruct (decide (c = "_"%char)); [|apply IH].
  intros [-> H]%andb_true_iff. by rewrite IH.
Qed.

Lemma compact_go_cons after_sep c s :
  compact_go after_sep (String c s) =
  if decide (c = "_"%char) then negb after_sep && compact_go true s
  else compact_go false s.
Proof. reflexivity. Qed.

Lemma compact_rstrip after_sep s :
  separated_go after_sep s = true →
  rstrip "_" s ≠ "" →
  compact_go after_sep (rstrip "_" s) = true.
Proof.
  revert after_sep. induction s as [|c s IH]; intros after_sep Hs Hne; simpl in *; [done|].
  destruct (rstrip "_" s) as [|b r] eqn:Hr.
  - destruct (decide (c = "_"%char)); [done|]. simpl. by rewrite decide_False.
  - rewrite compact_go_cons. destruct (decide (c = "_"%char)).
    + apply andb_true_iff in Hs as [-> Hs]. by apply IH.
    + by apply IH.
Qed.

Lemma compact_nonempty s : compact_go true s = true → s ≠ "".
Proof. by destruct s. Qed.

Lemma prefix_cons a s1 b s2 :
  String.prefix (String a s1) (String b s2) =
  if ascii_dec a b then String.prefix s1 s2 else false.
Proof. reflexivity. Qed.

Lemma prefix_empty s : String.prefix "" s = true.
Proof. by destruct s. Qed.

Lemma compact_no_leading s : compact_go true s = true → String.prefix "_" s = false.
Proof.
  destruct s as [|c s]; [done|].
  rewrite compact_go_cons, prefix_cons.
  destruct (decide (c = "_"%char)) as [->|Hne]; [done|].
  intros _. by destruct (ascii_dec "_" c) as [<-|].
Qed.

Lemma contains_cons sub c s :
  contains sub (String c s) = String.prefix sub (String c s) || contains sub s.
Proof. reflexivity. Qed.

Lemma compact_no_double after_sep s :
  compact_go after_sep s = true → contains "__" s = false.
Proof.
  revert after_sep. induction s as [|c s IH]; intros after_sep; [done|].
  rewrite compact_go_cons, contains_cons, prefix_cons.
  destruct (decide (c = "_"%char)) as [->|Hne].
  - intros [_ H]%andb_true_iff. rewrite (IH _ H), orb_false_r.
    apply compact_no_leading in H. by destruct (ascii_dec "_" "_").
  - intros H. rewrite (IH _ H), orb_false_r.
    by destruct (ascii_dec "_" c) as [<-|].
Qed.

Lemma rstrip_cons c a s :
  rstrip c (String a s) =
  match rstrip c s with
  | EmptyString => if decide (a = c) then EmptyString else String a EmptyString
  | r => String a r
  end.
Proof. reflexivity. Qed.

Lemma compact_no_trailing after_sep s :
  compact_go after_sep s = true → rstrip "_" s = s.
Proof.
  revert after_sep. induction s as [|c s IH]; intros after_sep; [done|].
  rewrite compact_go_cons, rstrip_cons.
  destruct (decide (c = "_"%char)) as [->|Hne].
  - intros [_ H]%andb_true_iff. rewrite (IH _ H).
    apply compact_nonempty in H. by destruct s.
  - intros H. rewrite (IH _ H). by destruct s.
Qed.

(** The cleaned name, before truncation, whatever the characters joined. *)
Lemma sanitize_clean_compact joined :
  let pieces := filter (λ piece, piece ≠ "") (split "_" joined) in
  compact_go true (if decide (join "_" pieces = "") then "op" else join "_" pieces) = true.
Proof.
  intros pieces. destruct (decide (join "_" pieces = "")) as [|Hne]; [done|].
  apply compact_join.
  - intros Hnil. by rewrite Hnil in Hne.
  - subst pieces. apply Forall_forall. intros piece [Hp Hin]%list_elem_of_filter.
    split; [|done].
    pose proof (split_pieces_no_sep "_" joined) as Hall.
    rewrite Forall_forall in Hall. exact (Hall piece Hin).
Qed.

Lemma sanitize_name_shape_compact name max_length :
  (1 ≤ max_length)%Z → compact_go true (_sanitize_name name max_length) = true.
Proof.
  intros Hmax. unfold _sanitize_name.
  pose proof (sanitize_clean_compact (join_chars sanitize_char name)) as Hclean.
  simpl in Hclean.
  set (c := if decide (_ = "") then "op" else _) in *.
  destruct (_ >? _)%Z; [|done].
  unfold slice_to. rewrite (proj2 (Z.ltb_ge _ _)) by lia.
  destruct (Z.to_nat max_length) as [|n] eqn:Hn; [lia|].
  apply compact_rstrip.
  - by apply separated_take, compact_separated.
  - destruct c as [|a c']; [done|].
    rewrite compact_go_cons in Hclean.
    change (take (S n) (String a c')) with (String a (take n c')).
    rewrite rstrip_cons.
    destruct (decide (a = "_"%char)); [done|].
    by destruct (rstrip "_" (take n c')).
Qed.

(** X3: with a bound of at least one character, a sanitised name is not
    empty, neither starts nor ends with an underscore, and has no two
    underscores in a row. *)
Theorem sanitize_name_shape name max_length :
  (1 ≤ max_length)%Z →
  let clean := _sanitize_name name max_length in
  clean ≠ "" ∧
  String.prefix "_" clean = false ∧
  rstrip "_" clean = clean ∧
  contains "__" clean = false.
Proof.
  intros Hmax clean.
  pose proof (sanitize_name_shape_compact name max_length Hmax) as Hcompact.
  split; [by apply compact_nonempty|].
  split; [by apply compact_no_leading|].
  split; [by eapply compact_no_trailing | by eapply compact_no_double].
Qed.


Lemma join_split sep s : join (String sep "") (split sep s) = s.
Proof.
  induction s as [|c s IH]; [done|]. simpl split.
  pose proof (split_nonempty sep s) as Hne.
  destruct (decide (c = sep)) as [->|].
  - destruct (split sep s) as [|h t]; [done|].
    change (join (String sep "") ("" :: h :: t))
      with (String sep (join (String sep "") (h :: t))).
    by rewrite IH.
  - destruct (split sep s) as [|h t]; [done|].
    destruct t as [|h' t'].
    + simpl in *. by rewrite IH.
    + change (join (String sep "") (String c h :: h' :: t'))
        with (String c (join (String sep "") (h :: h' :: t'))).
      by rewrite IH.
Qed.

Lemma compact_split after_sep s :
  compact_go after_sep s = true →
  ∃ h t, split "_" s = h :: t ∧ (after_sep = true → h ≠ "") ∧ Forall (λ p, p ≠ "") t.
Proof.
  revert after_sep. induction s as [|c s IH]; intros after_sep.
  - simpl. intros ->%negb_true_iff. by exists "", [].
  - rewrite compact_go_cons. simpl split.
    destruct (decide (c = "_"%char)) as [->|Hne].
    + intros [->%negb_true_iff H]%andb_true_iff.
      destruct (IH _ H) as (h & t & -> & Hh & Ht).
      exists "", (h :: t). split; [done|]. split; [done|]. constructor; auto.
    + intros H. destruct (IH _ H) as (h & t & -> & _ & Ht).
      exists (String c h), t. by split.
Qed.

Lemma filter_all {A} (P : A → Prop) `{∀ x, Decision (P x)} (l : list A) :
  Forall P l → filter P l = l.
Proof.
  induction 1 as [|x l Hx Hl IH]; [done|].
  by rewrite filter_cons_True, IH.
Qed.

Lemma sanitize_name_zero name : _sanitize_name name 0 = "".
Proof.
  unfold _sanitize_name.
  set (clean := if decide (_ = "") then "op" else _).
  assert (clean ≠ "") as Hne by (subst clean; by destruct (decide _)).
  destruct clean as [|c clean']; [done|]. reflexivity.
Qed.

(** X1: with a non-negative bound the sanitised name has at most that
    many characters; with a bound of zero it is the empty string. *)
Theorem sanitize_name_fits name max_length :
  (0 ≤ max_length)%Z →
  String.length (_sanitize_name name max_length) ≤ Z.to_nat max_length
  ∧ (max_length = 0%Z → _sanitize_name name max_length = "").
Proof.
  intros Hmax. split.
  - pose proof (sanitize_name_length name max_length Hmax). lia.
  - intros ->. apply sanitize_name_zero.
Qed.

(** X4: on names written in ASCII sanitising is idempotent: the sanitised
    form is left as it is by a second pass with the same non-negative
    bound. *)
Theorem sanitize_name_idempotent name max_length :
  all_chars is_ascii name = true →
  (0 ≤ max_length)%Z →
  _sanitize_name (_sanitize_name name max_length) max_length
  = _sanitize_name name max_length.
Proof.
  intros Hascii Hmax. destruct (decide (max_length = 0%Z)) as [->|Hpos].
  { by rewrite !sanitize_name_zero. }
  pose proof (sanitize_name_chars_ok name max_length Hascii) as Hchars.
  pose proof (sanitize_name_length name max_length Hmax) as Hlen.
  assert (compact_go true (_sanitize_name name max_length) = true) as Hcompact.
  { apply sanitize_name_shape_compact. lia. }
  set (r := _sanitize_name name max_length) in *.
  unfold _sanitize_name at 1.
  rewrite (join_chars_fixed _ Hchars).
  destruct (compact_split _ _ Hcompact) as (h & t & Hsplit & Hh & Ht).
  rewrite filter_all by (rewrite Hsplit; constructor; auto).
  rewrite join_split.
  rewrite decide_False by by apply compact_nonempty.
  by rewrite Z.gtb_ltb, (proj2 (Z.ltb_ge _ _)).
Qed.

End sanitize_name_more.

Section register_more.
Import Py openapi_tools.
Context {unicode : Unicode}.

Lemma for_each_ok_inv {A S : Type} (P : S → Prop) (body : S → A → S * option Exn) xs :
  (∀ s x, x ∈ xs → P s → (body s x).2 = None → P (body s x).1) →
  ∀ s, P s → (for_each body xs s).2 = None → P (for_each body xs s).1.
Proof.
  induction xs as [|x xs IH]; intros Hbody s Hs; simpl; [done|].
  pose proof (Hbody s x (list_elem_of_here _ _) Hs) as Hx.
  destruct (body s x) as [s' [e|]]; simpl in *; [done|].
  apply IH; [|by apply Hx]. intros s0 x0 Hin. apply Hbody. by right.
Qed.

Lemma for_each_all_inv {A S : Type} (P : S → Prop) (body : S → A → S * option Exn) xs :
  (∀ s x, x ∈ xs → P s → P (body s x).1) →
  ∀ s, P s → P (for_each body xs s).1.
Proof.
  induction xs as [|x xs IH]; intros Hbody s Hs; simpl; [done|].
  pose proof (Hbody s x (list_elem_of_here _ _) Hs) as Hx.
  destruct (body s x) as [s' [e|]]; simpl in *; [done|].
  apply IH; [|done]. intros s0 x0 Hin. apply Hbody. by right.
Qed.

Lemma register_operation_seen_inv prefix max_name_len path params st item :
  seen_inv st →
  (register_operation prefix max_name_len path params st item).2 = None →
  seen_inv (register_operation prefix max_name_len path params st item).1.
Proof.
  intros [Hseen Hnd]. unfold register_operation.
  destruct (negb _); [done|].
  destruct item.2 as [op|]; [|done].
  set (tn := prefix +:+ "_" +:+ _).
  destruct (decide (tn ∈ seen_tool_names st)) as [|Hfresh]; [done|].
  destruct (names_where is_path _) as [rp|e]; simpl; [|done].
  destruct (names_where is_required_query _) as [rq|e]; simpl; [|done].
  destruct (names_where is_optional_query _) as [oq|e]; simpl; [|done].
  intros _. split; cbn [registered seen_tool_names].
  - rewrite fmap_app, list_to_set_app_L, Hseen. simpl.
    by rewrite (right_id_L ∅ (∪)), (comm_L (∪)).
  - rewrite fmap_app. simpl. apply NoDup_app.
    split; [done|]. split; [|apply NoDup_singleton].
    intros n Hn Hn'. apply list_elem_of_singleton in Hn' as ->.
    apply Hfresh. rewrite Hseen. by apply elem_of_list_to_set.
Qed.

(** X8: when registration completes without raising, the count it returns
    is the number of tools handed to [mcp.tool]. *)
Theorem register_count_is_number_of_tools paths tool_prefix config_tool_prefix n :
  (register_openapi_tools paths tool_prefix config_tool_prefix).2 = Ok n →
  n = length (register_openapi_tools paths tool_prefix config_tool_prefix).1.
Proof.
  unfold register_openapi_tools.
  set (prefix := default _ _). set (m := (64 - _)%Z). set (init := Build_RegState _ _).
  assert ((for_each (register_path prefix m) paths init).2 = None →
          seen_inv (for_each (register_path prefix m) paths init).1) as Hinv.
  { apply for_each_ok_inv.
    - intros s x _ Hs. unfold register_path. apply for_each_ok_inv; [|done].
      intros s0 x0 _. apply register_operation_seen_inv.
    - split; [done | constructor]. }
  destruct (for_each (register_path prefix m) paths init) as [st [e|]]; [done|].
  simpl in *. intros [= <-]. destruct Hinv as [Hseen Hnd]; [done|].
  rewrite Hseen, size_list_to_set by done. by rewrite length_fmap.
Qed.

Lemma prefix_app p s : String.prefix p (p +:+ s) = true.
Proof.
  induction p as [|c p IH]; [apply prefix_empty|].
  change (String c p +:+ s) with (String c (p +:+ s)).
  rewrite prefix_cons. by destruct (ascii_dec c c).
Qed.

Lemma register_operation_tool_of prefix max_name_len paths path item st entry :
  (path, item) ∈ paths → entry ∈ pi_items item →
  Forall (tool_of prefix paths) (registered st) →
  Forall (tool_of prefix paths)
    (registered (register_operation prefix max_name_len path
                   (pi_parameters item) st entry).1).
Proof.
  intros Hpath Hentry Hst. unfold register_operation.
  destruct (negb _) eqn:Hverb; [done|].
  destruct entry as [verb [op|]]; simpl in *; [|done].
  set (tn := prefix +:+ "_" +:+ _).
  destruct (decide (tn ∈ seen_tool_names st)); [done|].
  destruct (names_where is_path _) as [rp|e] eqn:Hrp; simpl; [|done].
  destruct (names_where is_required_query _) as [rq|e] eqn:Hrq; simpl; [|done].
  destruct (names_where is_optional_query _) as [oq|e] eqn:Hoq; simpl; [|done].
  apply Forall_app. split; [done|]. apply Forall_singleton.
  exists item, op. cbn [path_template method tool_name has_request_body
    required_path_params required_query_params optional_query_params].
  split; [done|]. split; [done|].
  split; [by apply negb_false_iff, bool_decide_eq_true in Hverb|].
  split; [|done]. subst tn.
  change (prefix +:+ "_" +:+ ?x) with (prefix +:+ ("_" +:+ x)).
  generalize (_sanitize_name
    (default (verb +:+ "_" +:+ path) (truthy_str (operationId op))) max_name_len).
  intros x. clear. induction prefix as [|c p IH]; [by destruct x|].
  change (String.prefix (String c (p +:+ "_")) (String c (p +:+ "_" +:+ x)) = true).
  rewrite prefix_cons. by destruct (ascii_dec c c).
Qed.

(** X9: every registered tool comes from an operation of the spec: its
    path is a key of [paths], its method a key of that path item whose value
    is an object and whose lower-cased form is one of the five verbs, its
    name starts with the prefix and an underscore, and its parameter lists
    and body flag are those of that operation. *)
Theorem registered_tools_come_from_spec paths tool_prefix config_tool_prefix :
  Forall (tool_of (default config_tool_prefix (truthy_str tool_prefix)) paths)
    (register_openapi_tools paths tool_prefix config_tool_prefix).1.
Proof.
  unfold register_openapi_tools.
  set (prefix := default _ _). set (m := (64 - _)%Z). set (init := Build_RegState _ _).
  assert (Forall (tool_of prefix paths)
            (registered (for_each (register_path prefix m) paths init).1)) as Hall.
  { apply (for_each_all_inv (λ st, Forall (tool_of prefix paths) (registered st))).
    - intros s [path item] Hin Hs. unfold register_path. simpl.
      apply (for_each_all_inv (λ st, Forall (tool_of prefix paths) (registered st)));
        [|done].
      intros s0 x0 Hx0 Hs0. by apply register_operation_tool_of.
    - constructor. }
  by destruct (for_each _ _ _) as [st [e|]].
Qed.

End register_more.

Section collect_parameters_more.
Import Py openapi_tools.

Lemma collect_loop_sublist l : ∀ st done,
  st.2 `sublist_of` done → (foldl collect_step st l).2 `sublist_of` (done ++ l).
Proof.
  induction l as [|param l IH]; intros st done Hsub; simpl.
  - by rewrite app_nil_r.
  - replace (done ++ param :: l) with ((done ++ [param]) ++ l)
      by (by rewrite <- app_assoc).
    apply IH. unfold collect_step.
    destruct (decide (param_key param ∈ st.1)); simpl.
    + by apply sublist_inserts_r.
    + by apply sublist_app.
Qed.

(** X5: merging neither reorders nor invents parameters (the merged list
    is a sublist of the path-level list followed by the operation-level
    one) and loses no (name, location) pair. *)
Theorem collect_parameters_keeps_order_and_keys path_params op_params :
  _collect_parameters path_params op_params `sublist_of` (path_params ++ op_params)
  ∧ ∀ k, k ∈ param_key <$> _collect_parameters path_params op_params
         ↔ k ∈ param_key <$> (path_params ++ op_params).
Proof.
  split.
  - unfold _collect_parameters. apply collect_loop_sublist.
    apply (collect_loop_sublist path_params (∅, []) []). done.
  - intros k. destruct (collect_parameters_inv path_params op_params) as (_ & _ & Hfirst).
    specialize (Hfirst k). fold (_collect_parameters path_params op_params) in Hfirst.
    pose proof (first_with_key_None k (_collect_parameters path_params op_params)) as H1.
    pose proof (first_with_key_None k (path_params ++ op_params)) as H2.
    rewrite Hfirst in H1.
    destruct (decide (k ∈ param_key <$> _collect_parameters path_params op_params));
      destruct (decide (k ∈ param_key <$> (path_params ++ op_params))); tauto.
Qed.

End collect_parameters_more.

Section execute_request_more.
Import Py openapi_tools.
Context {unicode : Unicode}.

Lemma string_app_assoc a b c : (a +:+ b) +:+ c = a +:+ (b +:+ c).
Proof.
  induction a as [|x a IH]; [done|].
  change (String x ((a +:+ b) +:+ c) = String x (a +:+ (b +:+ c))). by rewrite IH.
Qed.

Lemma replace_go_cons old new skip c s :
  replace_go old new skip (String c s) =
  match skip with
  | S k => replace_go old new k s
  | O => if String.prefix old (String c s)
         then new +:+ replace_go old new (String.length old - 1) s
         else String c (replace_go old new 0 s)
  end.
Proof. reflexivity. Qed.

Lemma replace_go_skip old new x rest :
  replace_go old new (String.length x) (x +:+ rest) = replace_go old new 0 rest.
Proof.
  induction x as [|c x IH]; [done|].
  change (String c x +:+ rest) with (String c (x +:+ rest)).
  simpl String.length. by rewrite replace_go_cons.
Qed.

Lemma replace_absent old new s :
  contains old s = false → replace old new s = s.
Proof.
  unfold replace. induction s as [|c s IH]; [done|].
  rewrite contains_cons, replace_go_cons.
  intros [-> Hs]%orb_false_iff. by rewrite IH.
Qed.

Lemma replace_placeholder p new pre post :
  all_chars (λ c, negb (bool_decide (c = "{"%char))) pre = true →
  replace ("{" +:+ p +:+ "}") new (pre +:+ "{" +:+ p +:+ "}" +:+ post)
  = pre +:+ new +:+ replace ("{" +:+ p +:+ "}") new post.
Proof.
  unfold replace. induction pre as [|c pre IH]; intros Hpre.
  - change ("" +:+ ?x) with x.
    change ("{" +:+ p +:+ "}" +:+ post) with (String "{" (p +:+ "}" +:+ post)).
    rewrite replace_go_cons.
    change ("{" +:+ p +:+ "}") with (String "{" (p +:+ "}")).
    rewrite prefix_cons. destruct (ascii_dec "{" "{"); [|done].
    rewrite <- (string_app_assoc p "}" post), prefix_app.
    change (String.length (String "{" (p +:+ "}")) - 1)
      with (String.length (p +:+ "}") - 0).
    by rewrite Nat.sub_0_r, replace_go_skip.
  - simpl in Hpre. apply andb_true_iff in Hpre as [Hc Hpre].
    apply negb_true_iff, bool_decide_eq_false in Hc.
    change (String c pre +:+ ?x) with (String c (pre +:+ x)).
    rewrite replace_go_cons.
    change ("{" +:+ p +:+ "}") with (String "{" (p +:+ "}")) at 1.
    rewrite prefix_cons. destruct (ascii_dec "{" c) as [<-|]; [done|].
    by rewrite IH.
Qed.

(** X10: for a template with one placeholder [{p}] after a text without
    opening brace and before a text without that placeholder, the path sent
    is the template with the placeholder replaced by [str] of the argument. *)
Theorem build_path_substitutes py_str (args : gmap string PyVal) p v pre post :
  args !! p = Some v →
  all_chars (λ c, negb (bool_decide (c = "{"%char))) pre = true →
  contains ("{" +:+ p +:+ "}") post = false →
  build_path py_str args [p] (pre +:+ "{" +:+ p +:+ "}" +:+ post)
  = Ok (pre +:+ py_str v +:+ post).
Proof.
  intros Hv Hpre Hpost. simpl. unfold getitem. rewrite Hv. simpl.
  by rewrite replace_placeholder, replace_absent.
Qed.

Lemma build_path_ok py_str (args : gmap string PyVal) required :
  missing_in args required = [] →
  ∀ template, ∃ path, build_path py_str args required template = Ok path.
Proof.
  induction required as [|p required IH]; intros Hmiss template; [by eexists|].
  unfold missing_in in Hmiss. rewrite filter_cons in Hmiss.
  destruct (decide (args !! p = None)) as [|Hp]; [done|].
  simpl. unfold getitem. destruct (args !! p) as [v|]; [|done]. simpl.
  by apply IH.
Qed.

(** X11: when the arguments are complete but [auth_params()] raises, or
    [auth_headers()] raises after it, the executor raises that exception
    and sends nothing. *)
Theorem execute_request_needs_auth
    py_str client method path_template
    required_path_params required_query_params optional_query_params
    auth_params auth_headers has_request_body (args : gmap string PyVal) net e :
  missing_in args required_path_params = [] →
  missing_in args required_query_params = [] →
  auth_params = Raise e ∨ ((∃ auth, auth_params = Ok auth) ∧ auth_headers = Raise e) →
  _execute_request py_str client method path_template
    required_path_params required_query_params optional_query_params
    auth_params auth_headers has_request_body args net
  = (Raise e, net).
Proof.
  intros Hpath Hquery Hauth. unfold _execute_request.
  rewrite Hpath, Hquery. simpl.
  destruct (build_path_ok py_str args required_path_params Hpath path_template)
    as [path ->]. simpl.
  destruct Hauth as [->|[[auth ->] ->]]; reflexivity.
Qed.

(** X12: with complete arguments and both auth callables returning, the
    executor sends exactly one request (upper-cased method, substituted
    path, the assembled query, the body only for an operation with a request
    body, no headers argument when the auth headers are empty) and returns
    the decoded body of a 2xx response, its text when it does not decode, or
    raises the transport exception or the [HTTPStatusError] of a non-2xx
    response. *)
Theorem execute_request_sends_once
    py_str client method path_template
    required_path_params required_query_params optional_query_params
    (auth headers : gmap string PyVal) (has_request_body : bool)
    (args : gmap string PyVal) net :
  missing_in args required_path_params = [] →
  missing_in args required_query_params = [] →
  ∃ path,
    build_path py_str args required_path_params path_template = Ok path ∧
    let request :=
      {| rq_method := upper method;
         rq_path := path;
         rq_params := build_query required_query_params optional_query_params args auth;
         rq_json := if has_request_body then default PyNone (args !! "body") else PyNone;
         rq_headers := if decide (headers = ∅) then None else Some headers |} in
    _execute_request py_str client method path_template
      required_path_params required_query_params optional_query_params
      (Ok auth) (Ok headers) has_request_body args net
    = (match client request with
       | Raise exc => Raise exc
       | Ok resp =>
           if ((200 <=? resp_status_code resp) && (resp_status_code resp <=? 299))%Z
           then Ok (default (PyStr (resp_text resp)) (resp_json resp))
           else Raise (HTTPStatusError (resp_status_code resp) (resp_text resp))
       end, net ++ [request]).
Proof.
  intros Hpath Hquery.
  destruct (build_path_ok py_str args required_path_params Hpath path_template)
    as [path Hbuild].
  exists path. split; [done|]. intros request.
  unfold _execute_request. rewrite Hpath, Hquery, Hbuild. simpl.
  fold request. destruct (client request) as [resp|exc]; simpl; [|done].
  unfold raise_for_status. by destruct (_ && _).
Qed.

End execute_request_more.

Section auth_gateway_more.
Import Py auth_gateway.

Lemma expires_at_ok c expiry :
  expires_at c = Ok expiry →
  expiry = (fetched_at c + ttl_seconds c * 1000000)%Z
  ∧ (0 ≤ expiry ≤ DATETIME_MAX)%Z.
Proof.
  unfold expires_at, timedelta, datetime_add, in_datetime_range.
  destruct (_ >? _)%Z; [done|]. simpl.
  destruct (_ && _) eqn:Hrange; [|done].
  apply andb_true_iff in Hrange as [H1%Z.leb_le H2%Z.leb_le].
  intros [= <-]. lia.
Qed.

(** X15: expiry never flaps: credentials expired at one instant are
    expired at every later one; at the instant they were fetched they are
    unexpired exactly when the TTL is not negative and their expiry is a
    date [datetime] can hold; and when it is not, [is_expired] raises, the
    same [OverflowError] at every instant. *)
Theorem is_expired_monotone c t t' :
  (t ≤ t')%Z →
  (is_expired t c = Ok true → is_expired t' c = Ok true)
  ∧ (is_expired (fetched_at c) c = Ok false
     ↔ (0 ≤ ttl_seconds c)%Z ∧ ∃ expiry, expires_at c = Ok expiry)
  ∧ (∀ exc, expires_at c = Raise exc →
            is_expired t c = Raise exc ∧ is_expired t' c = Raise exc
            ∧ ∃ cause, exc = OverflowError cause).
Proof.
  intros Hle. unfold is_expired.
  destruct (expires_at c) as [expiry|exc] eqn:Hexp; simpl.
  - apply expires_at_ok in Hexp as [-> _]. split; [|split].
    + intros [= H]. f_equal. rewrite Z.gtb_ltb, Z.ltb_lt in *. lia.
    + split.
      * intros [= H]. rewrite Z.gtb_ltb, Z.ltb_ge in H. split; [lia | by eexists].
      * intros [H _]. f_equal. rewrite Z.gtb_ltb, Z.ltb_ge. lia.
    + done.
  - split; [done|]. split.
    + split; [done|]. by intros [_ [? ?]].
    + intros ? [= <-]. split; [done|]. split; [done|].
      unfold expires_at, timedelta, datetime_add in Hexp.
      destruct (_ >? _)%Z; simpl in Hexp; [injection Hexp as <-; by eexists|].
      destruct (in_datetime_range _); [done|]. injection Hexp as <-. by eexists.
Qed.

Lemma read_response_ok config s now response creds :
  read_response config s now response = Ok creds →
  Forall (λ m, is_Some (credentials creds !! name m)) (credentials_format config)
  ∧ ttl_seconds creds = cache_ttl_seconds s
  ∧ fetched_at creds = now
  ∧ (200 ≤ gw_status_code response ≤ 299)%Z.
Proof.
  unfold read_response.
  destruct (_ =? 401)%Z; [done|]. destruct (_ =? 403)%Z; [done|].
  destruct (_ =? 404)%Z; [done|]. destruct (_ >=? 500)%Z; [done|].
  destruct (negb _) eqn:Hok; [done|].
  apply negb_false_iff, andb_true_iff in Hok as [H1%Z.leb_le H2%Z.leb_le].
  destruct (gw_json response) as [[| | | | |data]|]; try done.
  destruct (default (PyDict data) (data !! "data")) as [| | | | |creds_data]; try done.
  destruct (negb _) eqn:Hmissing; [done|].
  apply negb_false_iff, bool_decide_eq_true in Hmissing.
  intros [= <-]. simpl. repeat split; try done.
  apply Forall_forall. intros m Hm.
  destruct (creds_data !! name m) as [v|] eqn:Hv; [by eexists|].
  assert (name m ∈ filter (λ c, creds_data !! c = None) (name <$> credentials_format config))
    as Hin.
  { apply list_elem_of_filter. split; [done|]. by apply list_elem_of_fmap_2. }
  rewrite Hmissing in Hin. inversion Hin.
Qed.

(** X16: credentials are returned only for a 2xx answer, carry a value
    for every credential name of the configured mapping, the configured TTL,
    and the clock reading after the exchange as their fetch time. *)
Theorem fetch_success_is_complete gw config s jwt w creds :
  (_fetch_from_gateway gw config s jwt w).1 = Ok creds →
  Forall (λ m, is_Some (credentials creds !! name m)) (credentials_format config)
  ∧ ttl_seconds creds = cache_ttl_seconds s
  ∧ fetched_at creds = (utcnow w + latency gw (length (fetches w)))%Z
  ∧ ∃ response,
      answer gw (length (fetches w)) (gateway_request config s jwt) = Ok response
      ∧ (200 ≤ gw_status_code response ≤ 299)%Z.
Proof.
  unfold _fetch_from_gateway.
  destruct (answer gw _ _) as [response|[]]; simpl; try done.
  intros H. apply read_response_ok in H as (H1 & H2 & H3 & H4).
  repeat split; try done. by exists response.
Qed.

(** X17: a non-2xx answer, a connect failure and a timeout all surface as
    [AuthGatewayError]: with the status code of the answer in the first
    case, without status code in the other two. *)
Theorem fetch_failure_is_gateway_error gw config s jwt w :
  match answer gw (length (fetches w)) (gateway_request config s jwt) with
  | Ok response => ¬ (200 ≤ gw_status_code response ≤ 299)%Z
  | Raise exc => ∃ text, exc = ConnectError text ∨ exc = TimeoutException text
  end →
  ∃ e, (_fetch_from_gateway gw config s jwt w).1 = Raise (GatewayError e)
       ∧ status_code e =
         match answer gw (length (fetches w)) (gateway_request config s jwt) with
         | Ok response => Some (gw_status_code response)
         | Raise _ => None
         end.
Proof.
  unfold _fetch_from_gateway.
  destruct (answer gw _ _) as [response|exc]; simpl.
  - intros Hstatus. unfold read_response, not_configured, gateway_error.
    destruct (Z.eqb_spec (gw_status_code response) 401) as [->|]; [by eexists|].
    destruct (Z.eqb_spec (gw_status_code response) 403) as [->|]; [by eexists|].
    destruct (Z.eqb_spec (gw_status_code response) 404) as [->|]; [by eexists|].
    destruct (_ >=? 500)%Z; [by eexists|].
    destruct (negb _) eqn:Hok; [by eexists|].
    apply negb_false_iff, andb_true_iff in Hok as [H1%Z.leb_le H2%Z.leb_le]. lia.
  - intros (text & [-> | ->]); by eexists.
Qed.

Lemma authenticate_ok_state gw config jwt s w creds s' w' :
  authenticate gw config jwt s w = (Ok creds, s', w') →
  _cache s' !! jwt = Some creds ∧ _current_jwt s' = Some jwt
  ∧ ∃ expiry, expires_at creds = Ok expiry.
Proof.
  unfold authenticate.
  assert (∀ r : result APICredentials * Service * World,
    r = match _fetch_from_gateway gw config s jwt w with
        | (Ok credentials, w1) =>
            match expires_at credentials with
            | Ok _ => (Ok credentials,
                       set_session s (<[ jwt := credentials ]> (_cache s)) (Some jwt), w1)
            | Raise e =>
                (Raise e, set_session s (<[ jwt := credentials ]> (_cache s)) (Some jwt), w1)
            end
        | (Raise e, w1) => (Raise e, s, w1)
        end →
    r = (Ok creds, s', w') →
    _cache s' !! jwt = Some creds ∧ _current_jwt s' = Some jwt
    ∧ ∃ expiry, expires_at creds = Ok expiry) as Hfetch.
  { intros r ->.
    destruct (_fetch_from_gateway gw config s jwt w) as [[c|e] w1]; [|done].
    destruct (expires_at c) as [expiry|e] eqn:Hexp; [|done].
    intros [= <- <- <-]. simpl. rewrite lookup_insert_eq. eauto. }
  destruct (_cache s !! jwt) as [cached|] eqn:Hc; [|by apply Hfetch].
  unfold is_expired.
  destruct (expires_at cached) as [expiry|e] eqn:Hexp; simpl; [|done].
  destruct (_ >? _)%Z; [by apply Hfetch|].
  intros [= <- <- <-]. simpl. eauto.
Qed.

Lemma authenticate_frame gw config jwt s w other :
  other ≠ jwt →
  _cache (authenticate gw config jwt s w).1.2 !! other = _cache s !! other.
Proof.
  intros Hne. unfold authenticate.
  assert (_cache (match _fetch_from_gateway gw config s jwt w with
        | (Ok credentials, w1) =>
            match expires_at credentials with
            | Ok _ => (Ok credentials,
                       set_session s (<[ jwt := credentials ]> (_cache s)) (Some jwt), w1)
            | Raise e =>
                (Raise e, set_session s (<[ jwt := credentials ]> (_cache s)) (Some jwt), w1)
            end
        | (Raise e, w1) => (Raise e, s, w1)
        end).1.2 !! other = _cache s !! other) as Hfetch.
  { destruct (_fetch_from_gateway gw config s jwt w) as [[c|e] w1]; [|done].
    destruct (expires_at c); simpl; by rewrite lookup_insert_ne. }
  destruct (_cache s !! jwt) as [cached|] eqn:Hc; [|exact Hfetch].
  destruct (is_expired (utcnow w) cached) as [[]|e]; [exact Hfetch|done|done].
Qed.

Lemma active_credentials s jwt creds w :
  _cache s !! jwt = Some creds → _current_jwt s = Some jwt → jwt ≠ "" →
  is_expired (utcnow w) creds = Ok false →
  current_credentials s w = Ok (Some creds) ∧ is_authenticated s w = Ok true.
Proof.
  intros Hcache Hcur Hne Hfresh. unfold current_credentials, is_authenticated.
  rewrite Hcur. destruct jwt; [done|]. simpl. by rewrite Hcache, Hfresh.
Qed.

(** X18: a successful [authenticate] stores the credentials under the
    token, makes the token the active one and leaves the entries of all other
    tokens alone; while the credentials are unexpired the service reports
    itself authenticated, unless the token is the empty string, which the
    truthiness test of [is_authenticated] treats as no token. *)
Theorem authenticate_activates_session gw config jwt s w creds s' w' w2 :
  authenticate gw config jwt s w = (Ok creds, s', w') →
  is_expired (utcnow w2) creds = Ok false →
  _cache s' !! jwt = Some creds
  ∧ _current_jwt s' = Some jwt
  ∧ (∀ other, other ≠ jwt → _cache s' !! other = _cache s !! other)
  ∧ current_credentials s' w2 = Ok (if decide (jwt = "") then None else Some creds)
  ∧ is_authenticated s' w2 = Ok (bool_decide (jwt ≠ "")).
Proof.
  intros Hauth Hfresh.
  destruct (authenticate_ok_state _ _ _ _ _ _ _ _ Hauth) as (Hcache & Hcur & _).
  split; [done|]. split; [done|]. split.
  - intros other Hne.
    pose proof (authenticate_frame gw config jwt s w other Hne) as Hframe.
    by rewrite Hauth in Hframe.
  - destruct (decide (jwt = "")) as [->|Hne].
    + unfold current_credentials, is_authenticated. rewrite Hcur.
      cbn [truthy_str]. done.
    + rewrite bool_decide_eq_true_2 by done. by eapply active_credentials.
Qed.

Lemma logout_no_session s w :
  current_credentials (logout s) w = Ok None
  ∧ is_authenticated (logout s) w = Ok false.
Proof.
  unfold logout, current_credentials, is_authenticated.
  destruct (_current_jwt s) as [[|c jwt]|] eqn:Hcur; simpl; rewrite ?Hcur; try done.
  by rewrite decide_True.
Qed.

(** X19: [logout] after a successful [authenticate] with a non-empty token
    evicts that token's entry, clears the active token, leaves the service
    unauthenticated and keeps the entries of all other tokens. *)
Theorem logout_after_authenticate gw config jwt s w creds s' w' w2 :
  jwt ≠ "" →
  authenticate gw config jwt s w = (Ok creds, s', w') →
  _cache (logout s') !! jwt = None
  ∧ _current_jwt (logout s') = None
  ∧ is_authenticated (logout s') w2 = Ok false
  ∧ ∀ other, other ≠ jwt → _cache (logout s') !! other = _cache s !! other.
Proof.
  intros Hne Hauth.
  destruct (authenticate_ok_state _ _ _ _ _ _ _ _ Hauth) as (Hcache & Hcur & _).
  assert (∀ other, other ≠ jwt → _cache s' !! other = _cache s !! other) as Hframe.
  { intros other Ho.
    pose proof (authenticate_frame gw config jwt s w other Ho) as H.
    by rewrite Hauth in H. }
  split; [|split; [|split; [apply logout_no_session|]]].
  - unfold logout. rewrite Hcur. destruct jwt as [|c jwt]; [done|].
    cbn [truthy_str clear_cache]. simpl. apply lookup_delete_eq.
  - unfold logout. rewrite Hcur. destruct jwt as [|c jwt]; [done|].
    cbn [truthy_str clear_cache]. rewrite Hcur, decide_True by done. done.
  - intros other Ho. unfold logout. rewrite Hcur.
    destruct jwt as [|c jwt]; [done|]. cbn [truthy_str clear_cache]. simpl.
    by rewrite lookup_delete_ne, Hframe.
Qed.

Lemma to_auth_params_fold py_str (c : APICredentials) (ms : list CredentialMapping) :
  ∀ (params : gmap string PyVal) q v,
    foldl (λ params m,
             match credentials c !! name m, truthy_str (query_param m) with
             | Some value, Some q => <[ q := projected py_str m value ]> params
             | _, _ => params
             end) params ms !! q = Some v →
    params !! q = Some v ∨
    ∃ m value, m ∈ ms ∧ query_param m = Some q ∧ q ≠ ""
               ∧ credentials c !! name m = Some value
               ∧ v = projected py_str m value.
Proof.
  induction ms as [|m ms IH]; intros params q v; simpl; [by left|].
  intros H. apply IH in H as [H|(m' & value & Hin & ?)].
  - destruct (credentials c !! name m) as [value|] eqn:Hv; [|by left].
    destruct (query_param m) as [[|a q']|] eqn:Hq; simpl in H; try by left.
    destruct (decide (String a q' = q)) as [<-|Hne].
    + rewrite lookup_insert_eq in H. injection H as <-.
      right. exists m, value. split; [left|]. by repeat split.
    + rewrite lookup_insert_ne in H by done. by left.
  - right. exists m', value. split; [by right | done].
Qed.

(** X20: every projected auth parameter comes from the mapping: its name
    is the non-empty [query_param] of a configured mapping whose credential
    is present, and its value is that credential, prefixed when the mapping
    has a prefix. *)
Theorem to_auth_params_sound py_str config c q v :
  to_auth_params py_str config c !! q = Some v →
  ∃ m value, m ∈ credentials_format config ∧ query_param m = Some q ∧ q ≠ ""
             ∧ credentials c !! name m = Some value
             ∧ v = (if decide (prefix m = "") then value
                    else PyStr (prefix m +:+ py_str value)).
Proof.
  intros H. apply to_auth_params_fold in H as [H|H]; [by rewrite lookup_empty in H|].
  exact H.
Qed.

End auth_gateway_more.

Section server_tools_facts.
Import Py openapi_tools auth_gateway server_tools.
Context {unicode : Unicode}.

Lemma expires_at_raises c exc :
  expires_at c = Raise exc → ∃ cause, exc = OverflowError cause.
Proof.
  unfold expires_at, timedelta, datetime_add.
  destruct (_ >? _)%Z; simpl; [intros [= <-]; by eexists|].
  destruct (in_datetime_range _); [done|]. intros [= <-]. by eexists.
Qed.

(** A failing [authenticate] leaves the service as it was, unless what
    fails is the expiry computed for credentials just fetched and stored. *)
Lemma authenticate_failure gw config jwt s w exc :
  (authenticate gw config jwt s w).1.1 = Raise exc →
  (authenticate gw config jwt s w).1.2 = s
  ∨ ∃ creds cause,
      (_fetch_from_gateway gw config s jwt w).1 = Ok creds
      ∧ expires_at creds = Raise (OverflowError cause)
      ∧ exc = OverflowError cause
      ∧ (authenticate gw config jwt s w).1.2
        = set_session s (<[ jwt := creds ]> (_cache s)) (Some jwt).
Proof.
  unfold authenticate.
  set (fetch := match _fetch_from_gateway gw config s jwt w with
                | (Ok credentials, w1) => _
                | (Raise e, w1) => _
                end).
  assert (fetch.1.1 = Raise exc →
          fetch.1.2 = s
          ∨ ∃ creds cause,
              (_fetch_from_gateway gw config s jwt w).1 = Ok creds
              ∧ expires_at creds = Raise (OverflowError cause)
              ∧ exc = OverflowError cause
              ∧ fetch.1.2 = set_session s (<[ jwt := creds ]> (_cache s)) (Some jwt))
    as Hfetch.
  { subst fetch.
    destruct (_fetch_from_gateway gw config s jwt w) as [[c|e] w1]; [|by left].
    destruct (expires_at c) as [expiry|e] eqn:Hexp; [done|].
    simpl. intros [= ->]. right.
    destruct (expires_at_raises _ _ Hexp) as [cause ->]. by exists c, cause. }
  destruct (_cache s !! jwt) as [cached|]; [|exact Hfetch].
  destruct (is_expired (utcnow w) cached) as [[]|e]; [exact Hfetch| |]; by left.
Qed.

(** X21: when [set_auth_token] reports a failure the service (cache and
    active token) is as before, with one exception: the credentials were
    fetched and stored, and the failure is the [OverflowError] of their
    expiry, reported as an unexpected error.  A failure reported with an
    error text (a blank token, a gateway error) always leaves the service
    as it was, and for a blank token nothing is sent to the gateway. *)
Theorem set_auth_token_failure_keeps_service gw config jwt s w :
  reply_success (set_auth_token gw config jwt s w).1.1 = false →
  (strip jwt = "" →
     (set_auth_token gw config jwt s w).1.2 = s
     ∧ (set_auth_token gw config jwt s w).2 = w)
  ∧ (∀ text, reply_error (set_auth_token gw config jwt s w).1.1 = Some (ErrorText text) →
             (set_auth_token gw config jwt s w).1.2 = s)
  ∧ ((set_auth_token gw config jwt s w).1.2 = s
     ∨ ∃ creds cause,
         (_fetch_from_gateway gw config s (strip jwt) w).1 = Ok creds
         ∧ expires_at creds = Raise (OverflowError cause)
         ∧ reply_error (set_auth_token gw config jwt s w).1.1
           = Some (UnexpectedError (OverflowError cause))
         ∧ (set_auth_token gw config jwt s w).1.2
           = set_session s (<[ strip jwt := creds ]> (_cache s)) (Some (strip jwt))).
Proof.
  unfold set_auth_token.
  destruct (bool_decide (jwt = "") || bool_decide (strip jwt = "")) eqn:Hblank.
  { intros _. split; [done|]. split; [done | by left]. }
  apply orb_false_iff in Hblank as [_ Hstrip%bool_decide_eq_false].
  pose proof (authenticate_failure gw config (strip jwt) s w) as Hkeep.
  pose proof (authenticate_ok_state gw config (strip jwt) s w) as Hok.
  destruct (authenticate gw config (strip jwt) s w) as [[[creds|exc] s'] w'];
    simpl in *.
  - destruct (Hok creds s' w' eq_refl) as (_ & _ & expiry & Hexp).
    rewrite Hexp. simpl. intros H. discriminate H.
  - intros _. split; [done|]. specialize (Hkeep exc eq_refl).
    split.
    + intros text. destruct Hkeep as [->|(c & cause & _ & _ & -> & _)];
        [by destruct exc|]. simpl. intros Htext. discriminate Htext.
    + destruct Hkeep as [->|(c & cause & Hfetch & Hexp & -> & ->)].
      * left. by destruct exc.
      * right. by exists c, cause.
Qed.

(** X22: [set_auth_token] reports success exactly through a successful
    [authenticate] of the stripped token, reports the expiry of the
    credentials obtained, and leaves the service authenticated for as long as
    they are unexpired: [is_authenticated] and [get_auth_status] both say so. *)
Theorem set_auth_token_success_authenticates gw config jwt s w w2 :
  reply_success (set_auth_token gw config jwt s w).1.1 = true →
  ∃ creds expiry,
    authenticate gw config (strip jwt) s w
      = (Ok creds, (set_auth_token gw config jwt s w).1.2,
         (set_auth_token gw config jwt s w).2)
    ∧ expires_at creds = Ok expiry
    ∧ reply_expire_at (set_auth_token gw config jwt s w).1.1 = Some expiry
    ∧ (is_expired (utcnow w2) creds = Ok false →
       is_authenticated (set_auth_token gw config jwt s w).1.2 w2 = Ok true
       ∧ ∃ status,
           get_auth_status (set_auth_token gw config jwt s w).1.2 w2 w2 = Ok status
           ∧ authenticated status = true
           ∧ status_expire_at status = Some expiry).
Proof.
  unfold set_auth_token.
  destruct (bool_decide (jwt = "") || bool_decide (strip jwt = "")) eqn:Hblank; [done|].
  apply orb_false_iff in Hblank as [_ Hstrip%bool_decide_eq_false].
  destruct (authenticate gw config (strip jwt) s w) as [[[creds|exc] s'] w'] eqn:Hauth;
    simpl; [|by destruct exc].
  destruct (authenticate_ok_state _ _ _ _ _ _ _ _ Hauth) as (Hcache & Hcur & expiry & Hexp).
  rewrite Hexp. simpl. intros _. exists creds, expiry.
  split; [done|]. split; [done|]. split; [done|]. intros Hfresh.
  destruct (active_credentials _ _ _ w2 Hcache Hcur Hstrip Hfresh) as [Hcc Hia].
  split; [done|]. unfold get_auth_status. rewrite Hcc. simpl.
  rewrite Hfresh. simpl. rewrite Hexp. simpl. by eexists.
Qed.

(** X23: the [logout] tool reads [is_authenticated] first.  When that
    reading returns, the service is unauthenticated at every later instant
    and [get_auth_status] says so, and only the entry of the active token is
    evicted; when it raises (the expiry of the active entry is not a date
    [datetime] can hold), the tool raises the same exception and the session
    stays as it was. *)
Theorem logout_tool_ends_session s w w1 w2 :
  match is_authenticated s w with
  | Ok was_authenticated =>
      (logout_tool s w).1
      = Ok (if was_authenticated then "Sesión cerrada" else "No había sesión activa")
      ∧ is_authenticated (logout_tool s w).2 w1 = Ok false
      ∧ get_auth_status (logout_tool s w).2 w1 w2 = Ok not_authenticated_status
      ∧ ∀ other, _current_jwt s ≠ Some other →
                 _cache (logout_tool s w).2 !! other = _cache s !! other
  | Raise exc => logout_tool s w = (Raise exc, s)
  end.
Proof.
  unfold logout_tool.
  destruct (is_authenticated s w) as [was|exc]; [|done]. cbn [fst snd].
  destruct (logout_no_session s w1) as [Hcc Hia].
  split; [done|]. split; [done|]. split.
  - unfold get_auth_status. by rewrite Hcc.
  - intros other Hother. unfold logout.
    destruct (_current_jwt s) as [[|c jwt]|] eqn:Hcur; simpl; try done.
    apply lookup_delete_ne. congruence.
Qed.

(** X24: [api_request] without an authenticated session raises the
    [RuntimeError] of [_require_auth] before any attempt; otherwise it
    returns a value or raises an [HTTPException] with status 401 or 502; in
    all cases at most three attempts are made. *)
Theorem api_request_outcomes py_str config url s w0 attempts random
    method path params json :
  let out := (api_request py_str config url s w0 attempts random
                method path params json) in
  (is_authenticated s w0 = Ok false →
     out = (ApiRaise (RuntimeError (auth_required_message url)), server.fresh))
  ∧ (is_authenticated s w0 = Ok true →
     (∃ v, out.1 = ApiReturn v)
     ∨ (∃ d, out.1 = ApiHTTPException 401 d)
     ∨ (∃ d, out.1 = ApiHTTPException 502 d))
  ∧ server.calls out.2 ≤ 3.
Proof.
  intros out. subst out. unfold api_request, _require_auth.
  destruct (is_authenticated s w0) as [[]|exc]; simpl.
  - split; [done|]. split.
    + intros _.
      destruct (server.with_retry _ _ _ _ _ _ _) as [[resp|exc] w]; simpl.
      * left. by eexists.
      * right. destruct exc; simpl; eauto.
    + pose proof (loop_exit
        (λ k, _do_request py_str config url s method path params json (attempts k))
        random server.RETRY_MAX_ATTEMPTS server.RETRY_BASE_DELAY server.RETRY_MAX_DELAY
        server.RETRYABLE_STATUS_CODES (Z.to_nat server.RETRY_MAX_ATTEMPTS) 0%Z None
        server.fresh (fresh_at_loop_head _ _ _ _)) as [Hcalls _].
      unfold server.with_retry.
      by destruct (server.retry_loop _ _ _ _ _ _ _ _ _ _) as [[resp|exc] w].
  - split; [done|]. split; [done|]. simpl. lia.
  - split; [done|]. split; [done|]. simpl. lia.
Qed.

End server_tools_facts.

Section api_request_more.
Import Py openapi_tools auth_gateway server_tools.
Context {unicode : Unicode}.

(** X25: when the three attempts all fail with a retryable status or a
    connect or timeout failure, [api_request] makes exactly three attempts
    and raises an [HTTPException] 502 built from the exception of the third. *)
Theorem api_request_gives_up py_str config url s w0 attempts random
    method path params json :
  is_authenticated s w0 = Ok true →
  (∀ k, k < 3 → ∃ exc,
      _do_request py_str config url s method path params json (attempts k) = Raise exc
      ∧ server.retried server.RETRYABLE_STATUS_CODES exc = true) →
  let out := api_request py_str config url s w0 attempts random
               method path params json in
  server.calls out.2 = 3 ∧
  ∃ exc d,
    _do_request py_str config url s method path params json (attempts 2) = Raise exc
    ∧ out.1 = http_exception_of exc
    ∧ out.1 = ApiHTTPException 502 d.
Proof.
  intros Hauth Hfail out. subst out. unfold api_request, _require_auth.
  rewrite Hauth. simpl. unfold server.with_retry.
  set (func := λ k, _do_request py_str config url s method path params json (attempts k)).
  destruct (loop_after_failures func random server.RETRY_MAX_ATTEMPTS
              server.RETRY_BASE_DELAY server.RETRY_MAX_DELAY
              server.RETRYABLE_STATUS_CODES 3 0 0 None server.fresh)
    as (w' & Heq & Hcalls); [lia | exact Hfail|].
  change (Z.to_nat server.RETRY_MAX_ATTEMPTS) with (3 + 0).
  change 0%Z with (Z.of_nat 0). rewrite Heq.
  destruct (Hfail 2) as (exc & Hexc & Hretried); [lia|].
  assert (func 2 = Raise exc) as Hlast by exact Hexc.
  simpl. rewrite Hlast. simpl.
  split; [exact Hcalls|]. exists exc.
  destruct exc; try discriminate Hretried; eexists; by repeat split.
Qed.

(** X26: when the session is valid at the entry check but no longer at
    the first attempt, the [RuntimeError] of [_require_auth] is not retried
    and reaches the caller as an [HTTPException] 502 after one attempt. *)
Theorem api_request_session_lost py_str config url s w0 attempts random
    method path params json :
  is_authenticated s w0 = Ok true →
  is_authenticated s (at_headers_check (attempts 0)) = Ok false →
  api_request py_str config url s w0 attempts random method path params json
  = (ApiHTTPException 502 (OtherDetail (RuntimeError (auth_required_message url))),
     server.called server.fresh).
Proof.
  intros Hauth Hlost. unfold api_request, _require_auth. rewrite Hauth. simpl.
  unfold server.with_retry.
  change (Z.to_nat server.RETRY_MAX_ATTEMPTS) with 3.
  rewrite (loop_raises _ _ _ _ _ _ _ _ _ _ (RuntimeError (auth_required_message url)));
    [done | | done].
  unfold _do_request, _auth_headers, _require_auth. simpl. by rewrite Hlost.
Qed.

End api_request_more.

Section tool_policies_more.
Import Py tool_policies.
Context {unicode : Unicode}.

Lemma matches_pattern_exists (re_search : string → string → bool) tool_name patterns :
  _matches_pattern re_search tool_name patterns = true
  ↔ ∃ pattern, pattern ∈ patterns ∧ re_search pattern tool_name = true.
Proof.
  induction patterns as [|p ps IH]; simpl.
  - split; [done | intros (? & H & _); inversion H].
  - destruct (re_search p tool_name) eqn:Hp.
    + split; [|done]. intros _. exists p. split; [left | done].
    + rewrite IH. split.
      * intros (q & Hq & Hm). exists q. split; [by right | done].
      * intros (q & Hq & Hm). apply elem_of_cons in Hq as [->|Hq]; [congruence|].
        by exists q.
Qed.

(** X27: the action is BLOCK exactly when a blocked pattern matches the
    name, REQUIRE_CONFIRMATION exactly when none does and a confirmation
    pattern matches, and the risk level is CRITICAL exactly for BLOCK. *)
Theorem policy_action_by_patterns (re_search : string → string → bool)
    (config : PoliciesConfig) tool_name :
  ((get_tool_policy re_search config tool_name).2 = BLOCK
   ↔ ∃ pattern, pattern ∈ blocked_patterns config ∧ re_search pattern tool_name = true)
  ∧ ((get_tool_policy re_search config tool_name).2 = REQUIRE_CONFIRMATION
     ↔ _matches_pattern re_search tool_name (blocked_patterns config) = false
       ∧ ∃ pattern, pattern ∈ require_confirmation config
                    ∧ re_search pattern tool_name = true)
  ∧ ((get_tool_policy re_search config tool_name).1 = CRITICAL
     ↔ (get_tool_policy re_search config tool_name).2 = BLOCK).
Proof.
  rewrite <- !matches_pattern_exists. unfold get_tool_policy.
  destruct (_matches_pattern re_search tool_name (blocked_patterns config)).
  { simpl. repeat split; try done. by intros [? _]. }
  destruct (_matches_pattern re_search tool_name (require_confirmation config)).
  { simpl. repeat split; done. }
  destruct (_ || _); [simpl; repeat split; try done; by intros [_ ?]|].
  destruct (_ || _); simpl; repeat split; try done; by intros [_ ?].
Qed.

(** X28: [requires_confirmation] is decided by the confirmation patterns
    alone: a name matched by a confirmation pattern is reported as requiring
    confirmation even when a blocked pattern matches it too. *)
Theorem requires_confirmation_ignores_blocking (re_search : string → string → bool)
    (config : PoliciesConfig) tool_name :
  requires_confirmation re_search config tool_name
  = _matches_pattern re_search tool_name (require_confirmation config).
Proof.
  unfold requires_confirmation, get_tool_policy.
  destruct (_matches_pattern re_search tool_name (require_confirmation config)); [done|].
  destruct (_matches_pattern re_search tool_name (blocked_patterns config)); [done|].
  destruct (_ || _); [done|]. by destruct (_ || _).
Qed.

Lemma filter_entry_length key value text :
  filter_entry key value = PyStr text → String.length text ≤ 103.
Proof.
  unfold filter_entry, truncated.
  assert (∀ t, String.length (take MAX_VALUE_LENGTH t +:+ "...") ≤ 103) as Htrunc.
  { intros t. rewrite string_length_app. pose proof (take_length MAX_VALUE_LENGTH t).
    unfold MAX_VALUE_LENGTH in *. change (String.length "...") with 3. lia. }
  assert (∀ v t, long_str v = None → v = PyStr t → String.length t ≤ 103) as Hshort.
  { intros v t Hv ->. simpl in Hv. unfold MAX_VALUE_LENGTH in Hv.
    destruct (Nat.ltb_spec 100 (String.length t)); [done | lia]. }
  destruct (any_in SENSITIVE_KEYS (lower key)).
  { intros [= <-]. by apply Nat.leb_le. }
  destruct (any_in TRUNCATE_KEYS (lower key)).
  - destruct (long_str value) as [t|] eqn:Hv; [intros [= <-]; apply Htrunc|].
    intros ->. by eapply Hshort.
  - destruct (long_str value) as [t|] eqn:Hv; [intros [= <-]; apply Htrunc|].
    intros ->. by eapply Hshort.
Qed.

(** X29: the filtered map has the keys of the input; every string in it has
    at most 103 characters; and a value that is neither under a sensitive key
    nor a string of more than 100 characters is passed through unchanged. *)
Theorem filter_bounds_strings (params : gmap string PyVal) :
  dom (_filter_sensitive_params params) = dom params
  ∧ (∀ key text, _filter_sensitive_params params !! key = Some (PyStr text) →
                 String.length text ≤ 103)
  ∧ (∀ key value, params !! key = Some value →
                  any_in SENSITIVE_KEYS (lower key) = false →
                  long_str value = None →
                  _filter_sensitive_params params !! key = Some value).
Proof.
  split; [|split].
  - apply set_eq. intros key. rewrite !elem_of_dom, filter_lookup.
    by rewrite fmap_is_Some.
  - intros key text. rewrite filter_lookup.
    destruct (params !! key) as [value|]; [|done]. simpl.
    intros [= H]. by eapply filter_entry_length.
  - intros key value Hv Hs Hl. rewrite filter_lookup, Hv. simpl.
    unfold filter_entry. rewrite Hs, Hl. by destruct (any_in TRUNCATE_KEYS _).
Qed.

(** X30: a record is emitted only when logging is enabled and the policy
    asks for it; it names the tool and its policy, is a warning exactly when
    a non-empty error is given, and shows "[REDACTED]" for every sensitive
    key of the parameters. *)
Theorem logged_record_is_redacted (re_search : string → string → bool)
    disable_logging config tool_name params result_summary error record :
  log_tool_execution re_search disable_logging config tool_name params
    result_summary error = Some record →
  disable_logging = false
  ∧ should_log_operation re_search false config tool_name = true
  ∧ log_tool record = tool_name
  ∧ (log_risk_level record, log_action record) = get_tool_policy re_search config tool_name
  ∧ (log_level record = LogWarning ↔ ∃ text, error = Some text ∧ text ≠ "")
  ∧ ∀ d key value, params = Some d → d !! key = Some value →
       any_in SENSITIVE_KEYS (lower key) = true →
       log_params record !! key = Some (PyStr "[REDACTED]").
Proof.
  unfold log_tool_execution.
  destruct disable_logging; [done|].
  destruct (negb _) eqn:Hlog; [done|]. apply negb_false_iff in Hlog.
  intros [= <-]. cbn [log_tool log_risk_level log_action log_level log_params].
  split; [done|]. split; [done|]. split; [done|].
  split; [by destruct (get_tool_policy _ _ _)|]. split.
  - destruct error as [[|c text]|]; simpl.
    + split; [done|]. by intros (? & [= <-] & ?).
    + split; [|done]. intros _. by eexists.
    + split; [done|]. by intros (? & ? & ?).
  - intros d key value -> Hv Hs.
    destruct (decide (d = ∅)) as [->|_]; [by rewrite lookup_empty in Hv|].
    rewrite filter_lookup, Hv. simpl. by rewrite filter_entry_sensitive.
Qed.

End tool_policies_more.

(* ===================================================================== *)
(** * The further properties at concrete inputs                           *)
(* ===================================================================== *)

Section more_examples.
Import Py openapi_tools auth_gateway server_tools tool_policies examples.
#[local] Existing Instance symbols.

Lemma sanitize_name_fits_witness :
  (0 ≤ 12)%Z ∧
  String.length (_sanitize_name "GET_/items/{id}/comments" 12) ≤ Z.to_nat 12.
Proof.
  assert (0 ≤ 12)%Z as Hmax by lia. split; [exact Hmax|].
  exact (proj1 (sanitize_name_fits "GET_/items/{id}/comments" 12 Hmax)).
Defined.

Lemma sanitize_name_shape_witness :
  (1 ≤ 12)%Z ∧
  _sanitize_name "__GET  /items/{id}__" 12 ≠ "" ∧
  contains "__" (_sanitize_name "__GET  /items/{id}__" 12) = false.
Proof.
  assert (1 ≤ 12)%Z as Hmax by lia. split; [exact Hmax|].
  destruct (sanitize_name_shape "__GET  /items/{id}__" 12 Hmax) as (H1 & _ & _ & H4).
  split; [exact H1 | exact H4].
Defined.

Lemma sanitize_name_charset_witness :
  all_chars is_ascii "GET_/items/{id}/comments" = true ∧
  all_chars name_char (_sanitize_name "GET_/items/{id}/comments" 12) = true.
Proof.
  assert (all_chars is_ascii "GET_/items/{id}/comments" = true) as Hascii
    by reflexivity.
  split; [exact Hascii|].
  exact (proj1 (sanitize_name_charset "GET_/items/{id}/comments" 12 Hascii)).
Defined.

Lemma sanitize_name_idempotent_witness :
  all_chars is_ascii "GET_/items/{id}/comments" = true ∧
  (0 ≤ 12)%Z ∧
  _sanitize_name (_sanitize_name "GET_/items/{id}/comments" 12) 12
  = _sanitize_name "GET_/items/{id}/comments" 12.
Proof.
  assert (all_chars is_ascii "GET_/items/{id}/comments" = true) as Hascii
    by reflexivity.
  assert (0 ≤ 12)%Z as Hmax by lia.
  split; [exact Hascii|]. split; [exact Hmax|].
  exact (sanitize_name_idempotent "GET_/items/{id}/comments" 12 Hascii Hmax).
Defined.

(** Outside ASCII neither holds: the capital I with dot above is
    alphanumeric and its lower-case form ends with a combining dot, which
    is not; the first pass keeps the dot, the second replaces it by an
    underscore and strips it. *)
Example sanitize_name_beyond_ascii :
  @_sanitize_name dotted_capital_i (String "200" "") 64 = String "i" (String "201" "")
  ∧ @_sanitize_name dotted_capital_i (String "i" (String "201" "")) 64 = "i".
Proof. split; vm_compute; reflexivity. Qed.

Lemma register_names_bounded_witness :
  String.length (default "api" (truthy_str None)) ≤ 63 ∧
  Forall (λ t, String.length (tool_name t) ≤ 64)
    (register_openapi_tools sample_paths None "api").1.
Proof.
  assert (String.length (default "api" (truthy_str None)) ≤ 63) as Hprefix
    by (simpl; lia).
  split; [exact Hprefix|].
  exact (register_names_bounded sample_paths None "api" Hprefix).
Defined.

Lemma register_count_is_number_of_tools_witness :
  (register_openapi_tools sample_paths None "api").2 = Ok 2 ∧
  2 = length (register_openapi_tools sample_paths None "api").1.
Proof.
  assert ((register_openapi_tools sample_paths None "api").2 = Ok 2) as Hrun
    by (vm_compute; reflexivity).
  split; [exact Hrun|].
  exact (register_count_is_number_of_tools sample_paths None "api" 2 Hrun).
Defined.

Lemma build_path_substitutes_witness :
  item_args !! "id" = Some (PyInt 42) ∧
  build_path str_scalar item_args ["id"] "/items/{id}/comments"
  = Ok "/items/42/comments".
Proof.
  assert (item_args !! "id" = Some (PyInt 42)) as Hid by reflexivity.
  split; [exact Hid|].
  exact (build_path_substitutes str_scalar item_args "id" (PyInt 42)
           "/items/" "/comments" Hid eq_refl eq_refl).
Defined.

Lemma execute_request_needs_auth_witness :
  missing_in item_args ["id"] = [] ∧
  _execute_request str_scalar ok_client "get" "/items/{id}" ["id"] [] ["fields"]
    (Raise not_authenticated) (Ok ∅) false item_args []
  = (Raise not_authenticated, []).
Proof.
  assert (missing_in item_args ["id"] = []) as Hpath by reflexivity.
  split; [exact Hpath|].
  refine (execute_request_needs_auth str_scalar ok_client "get" "/items/{id}"
            ["id"] [] ["fields"] (Raise not_authenticated) (Ok ∅) false item_args []
            not_authenticated Hpath eq_refl _).
  by left.
Defined.

Lemma execute_request_sends_once_witness :
  missing_in item_args ["id"] = [] ∧
  (_execute_request str_scalar ok_client "get" "/items/{id}" ["id"] [] ["fields"]
     (Ok {[ "key" := PyStr "test-api-key-12345" ]}) (Ok ∅) false item_args []).1
  = Ok (PyDict ∅).
Proof.
  assert (missing_in item_args ["id"] = []) as Hpath by reflexivity.
  split; [exact Hpath|].
  destruct (execute_request_sends_once str_scalar ok_client "get" "/items/{id}"
              ["id"] [] ["fields"] {[ "key" := PyStr "test-api-key-12345" ]} ∅
              false item_args [] Hpath eq_refl) as (path & _ & Hrun).
  simpl in Hrun. by rewrite Hrun.
Defined.

Lemma is_expired_monotone_witness :
  (7200000000 ≤ 7200000001)%Z ∧
  is_expired 7200000000 granted = Ok true ∧
  is_expired 7200000001 granted = Ok true.
Proof.
  assert (7200000000 ≤ 7200000001)%Z as Hle by lia. split; [exact Hle|].
  assert (is_expired 7200000000 granted = Ok true) as Hexpired by reflexivity.
  split; [exact Hexpired|].
  exact (proj1 (is_expired_monotone granted 7200000000 7200000001 Hle) Hexpired).
Defined.

Lemma fetch_success_is_complete_witness :
  (_fetch_from_gateway granting_gateway one_credential new_service session_token
     at_start).1 = Ok granted ∧
  Forall (λ m, is_Some (credentials granted !! name m))
    (credentials_format one_credential).
Proof.
  assert ((_fetch_from_gateway granting_gateway one_credential new_service
             session_token at_start).1 = Ok granted) as Hfetch
    by (vm_compute; reflexivity).
  split; [exact Hfetch|].
  exact (proj1 (fetch_success_is_complete granting_gateway one_credential
                  new_service session_token at_start granted Hfetch)).
Defined.

Lemma fetch_failure_is_gateway_error_witness :
  ∃ e, (_fetch_from_gateway unconfigured_gateway one_credential new_service
          session_token at_start).1 = Raise (GatewayError e)
       ∧ status_code e = Some 404%Z.
Proof.
  refine (fetch_failure_is_gateway_error unconfigured_gateway one_credential
            new_service session_token at_start _).
  simpl. lia.
Defined.

Lemma authenticate_activates_session_witness :
  authenticate granting_gateway one_credential session_token new_service at_start
  = (Ok granted, logged_in, after_fetch) ∧
  is_expired (utcnow half_an_hour_later) granted = Ok false ∧
  is_authenticated logged_in half_an_hour_later = Ok (bool_decide (session_token ≠ "")).
Proof.
  assert (authenticate granting_gateway one_credential session_token new_service
            at_start = (Ok granted, logged_in, after_fetch)) as Hauth
    by (vm_compute; reflexivity).
  assert (is_expired (utcnow half_an_hour_later) granted = Ok false) as Hfresh
    by reflexivity.
  split; [exact Hauth|]. split; [exact Hfresh|].
  exact (proj2 (proj2 (proj2 (proj2
    (authenticate_activates_session granting_gateway one_credential session_token
       new_service at_start granted logged_in after_fetch half_an_hour_later
       Hauth Hfresh))))).
Defined.

Lemma logout_after_authenticate_witness :
  session_token ≠ "" ∧
  authenticate granting_gateway one_credential session_token new_service at_start
  = (Ok granted, logged_in, after_fetch) ∧
  is_authenticated (logout logged_in) half_an_hour_later = Ok false.
Proof.
  assert (session_token ≠ "") as Hne by discriminate.
  assert (authenticate granting_gateway one_credential session_token new_service
            at_start = (Ok granted, logged_in, after_fetch)) as Hauth
    by (vm_compute; reflexivity).
  split; [exact Hne|]. split; [exact Hauth|].
  exact (proj1 (proj2 (proj2
    (logout_after_authenticate granting_gateway one_credential session_token
       new_service at_start granted logged_in after_fetch half_an_hour_later
       Hne Hauth)))).
Defined.

Lemma to_auth_params_sound_witness :
  to_auth_params str_scalar one_credential granted !! "key"
  = Some (PyStr "test-api-key-12345") ∧
  ∃ m value, m ∈ credentials_format one_credential ∧ query_param m = Some "key"
             ∧ credentials granted !! name m = Some value.
Proof.
  assert (to_auth_params str_scalar one_credential granted !! "key"
          = Some (PyStr "test-api-key-12345")) as Hkey by (vm_compute; reflexivity).
  split; [exact Hkey|].
  destruct (to_auth_params_sound str_scalar one_credential granted "key" _ Hkey)
    as (m & value & Hm & Hq & _ & Hv & _).
  by exists m, value.
Defined.

Lemma set_auth_token_failure_keeps_service_witness :
  reply_success (set_auth_token unconfigured_gateway one_credential session_token
                   new_service at_start).1.1 = false ∧
  (set_auth_token unconfigured_gateway one_credential session_token
     new_service at_start).1.2 = new_service.
Proof.
  assert (reply_success (set_auth_token unconfigured_gateway one_credential
            session_token new_service at_start).1.1 = false) as Hfail
    by (vm_compute; reflexivity).
  split; [exact Hfail|].
  destruct (set_auth_token_failure_keeps_service unconfigured_gateway
              one_credential session_token new_service at_start Hfail)
    as (_ & Htext & _).
  eapply Htext. reflexivity.
Defined.

(** The exception: a service whose TTL of [10 ** 12] seconds puts the
    expiry beyond the year 9999.  The credentials are fetched and stored,
    then the computation of their expiry raises: the tool reports a
    failure, the token is the active one, and reading [is_authenticated]
    raises from then on, also inside the [logout] tool, which leaves the
    session in place. *)
Example set_auth_token_overflow :
  (set_auth_token granting_gateway one_credential session_token
     everlasting_service at_start).1
  = (token_failure (UnexpectedError (OverflowError DateOutOfRange)),
     set_session everlasting_service
       {[ session_token :=
            {| credentials := {[ "api_key" := PyStr "test-api-key-12345" ]};
               fetched_at := 250000;
               ttl_seconds := 1000000000000 |} ]}
       (Some session_token))
  ∧ let stuck := (set_auth_token granting_gateway one_credential session_token
                    everlasting_service at_start).1.2 in
    is_authenticated stuck half_an_hour_later = Raise (OverflowError DateOutOfRange)
    ∧ logout_tool stuck half_an_hour_later
      = (Raise (OverflowError DateOutOfRange), stuck).
Proof. repeat split; vm_compute; reflexivity. Qed.

Lemma set_auth_token_success_authenticates_witness :
  reply_success (set_auth_token granting_gateway one_credential
                   "  header.payload.signature  " new_service at_start).1.1 = true ∧
  ∃ creds,
    authenticate granting_gateway one_credential
      (strip "  header.payload.signature  ") new_service at_start
    = (Ok creds,
       (set_auth_token granting_gateway one_credential
          "  header.payload.signature  " new_service at_start).1.2,
       (set_auth_token granting_gateway one_credential
          "  header.payload.signature  " new_service at_start).2).
Proof.
  assert (reply_success (set_auth_token granting_gateway one_credential
            "  header.payload.signature  " new_service at_start).1.1 = true) as Hok
    by (vm_compute; reflexivity).
  split; [exact Hok|].
  destruct (set_auth_token_success_authenticates granting_gateway one_credential
              "  header.payload.signature  " new_service at_start
              half_an_hour_later Hok) as (creds & expiry & Hauth & _).
  by exists creds.
Defined.

Lemma api_request_gives_up_witness :
  is_authenticated logged_in after_fetch = Ok true ∧
  server.calls (api_request str_scalar one_credential "https://test-auth-gateway.com"
                  logged_in after_fetch (λ _, failing_attempt) half
                  "get" "/items/42" None None).2 = 3.
Proof.
  assert (is_authenticated logged_in after_fetch = Ok true) as Hauth
    by (vm_compute; reflexivity).
  split; [exact Hauth|].
  refine (proj1 (api_request_gives_up str_scalar one_credential
                   "https://test-auth-gateway.com" logged_in after_fetch
                   (λ _, failing_attempt) half "get" "/items/42" None None Hauth _)).
  intros k _. eexists. split; vm_compute; reflexivity.
Defined.

Lemma api_request_session_lost_witness :
  is_authenticated logged_in after_fetch = Ok true ∧
  is_authenticated logged_in two_hours_later = Ok false ∧
  (api_request str_scalar one_credential "https://test-auth-gateway.com"
     logged_in after_fetch (λ _, late_attempt) half "get" "/items/42" None None).1
  = ApiHTTPException 502
      (OtherDetail (RuntimeError
         (auth_required_message "https://test-auth-gateway.com"))).
Proof.
  assert (is_authenticated logged_in after_fetch = Ok true) as Hauth
    by (vm_compute; reflexivity).
  assert (is_authenticated logged_in two_hours_later = Ok false) as Hlost
    by (vm_compute; reflexivity).
  split; [exact Hauth|]. split; [exact Hlost|].
  by rewrite (api_request_session_lost str_scalar one_credential
                "https://test-auth-gateway.com" logged_in after_fetch
                (λ _, late_attempt) half "get" "/items/42" None None Hauth Hlost).
Defined.

Lemma logged_record_is_redacted_witness :
  ∃ record,
    log_tool_execution literal_search false sample_policies "trello_update_card"
      (Some params_one) None None = Some record
    ∧ log_params record !! "api_token_text" = Some (PyStr "[REDACTED]").
Proof.
  destruct (log_tool_execution literal_search false sample_policies
              "trello_update_card" (Some params_one) None None)
    as [record|] eqn:Hlog; [|vm_compute in Hlog; discriminate].
  exists record. split; [reflexivity|].
  destruct (logged_record_is_redacted literal_search false sample_policies
              "trello_update_card" (Some params_one) None None record Hlog)
    as (_ & _ & _ & _ & _ & Hredacted).
  apply (Hredacted params_one "api_token_text" (PyStr long_secret));
    reflexivity.
Defined.

End more_examples.
